(** * build-your-own-curl: the one-shot HTTP/1.0 client of [cmd/root.go]

    The program is a single closure, [rootCmd.Run]: it parses its argument
    with [url.Parse], takes [Hostname()], [Port()] and [Path], defaults the
    port to "80", dials a TCP connection, writes one request with
    [fmt.Fprintf], reads once into a 1024-byte buffer and prints what it got.

    The development embeds that closure together with the parts of the Go
    standard library it calls (Go 1.22, the version the README names):
      - [strings]: the string helpers used by [net/url];
      - [url]:     [Parse], [Hostname], [Port] of [net/url];
      - [fmt]:     [Sprintf] for string operands, and the builtin [println];
      - a small Go runtime: a state monad with panics, blocking and [defer],
        a trace of the observable I/O, and TCP sockets served by a [World];
      - [cmd]:     [rootCmd.Run] and [Execute].

    A Go [string] is a sequence of bytes; it is modelled by [string], whose
    characters are the 256 values of [ascii]. *)

From Stdlib Require Import String Ascii List Bool Arith Lia.
Import ListNotations.
Open Scope string_scope.
Open Scope nat_scope.

(** ** Bytes *)

(** [lo <= c && c <= hi] on bytes. *)
Definition between (lo c hi : ascii) : bool :=
  (nat_of_ascii lo <=? nat_of_ascii c) && (nat_of_ascii c <=? nat_of_ascii hi).

(** [c] is one of the bytes of [cs] (a Go [switch c { case 'x', 'y': }]). *)
Fixpoint oneof (c : ascii) (cs : string) : bool :=
  match cs with
  | EmptyString => false
  | String d cs' => Ascii.eqb c d || oneof c cs'
  end.

Definition CR : ascii := "013"%char.
Definition LF : ascii := "010"%char.
Definition DQUOTE : ascii := "034"%char.
Definition CRLF : string := String CR (String LF EmptyString).

(** ** Package [strings] *)

Module strings.

(** [s[:n]]; every use below has [n <= len(s)]. *)
Fixpoint take (n : nat) (s : string) : string :=
  match n, s with
  | S n', String c s' => String c (take n' s')
  | _, _ => EmptyString
  end.

(** [s[n:]]; every use below has [n <= len(s)]. *)
Fixpoint drop (n : nat) (s : string) : string :=
  match n, s with
  | S n', String _ s' => drop n' s'
  | _, _ => s
  end.

Fixpoint HasPrefix (s prefix : string) {struct prefix} : bool :=
  match prefix with
  | EmptyString => true
  | String p prefix' =>
      match s with
      | EmptyString => false
      | String c s' => Ascii.eqb c p && HasPrefix s' prefix'
      end
  end.

(** [len(s) >= len(suffix) && s[len(s)-len(suffix):] == suffix] *)
Definition HasSuffix (s suffix : string) : bool :=
  (String.length suffix <=? String.length s)
  && String.eqb (drop (String.length s - String.length suffix) s) suffix.

(** Index of the first instance of [substr] in [s]; Go's -1 is [None]. *)
Fixpoint Index (s substr : string) : option nat :=
  if HasPrefix s substr then Some 0
  else match s with
       | EmptyString => None
       | String _ s' => option_map S (Index s' substr)
       end.

(** Index of the last instance of [substr] in [s]; Go's -1 is [None]. *)
Fixpoint LastIndex (s substr : string) : option nat :=
  match s with
  | EmptyString => if HasPrefix s substr then Some 0 else None
  | String _ s' =>
      match LastIndex s' substr with
      | Some i => Some (S i)
      | None => if HasPrefix s substr then Some 0 else None
      end
  end.

Definition LastIndexByte (s : string) (c : ascii) : option nat :=
  LastIndex s (String c EmptyString).

Definition Contains (s substr : string) : bool :=
  match Index s substr with Some _ => true | None => false end.

(** [Count(s, substr)] for a one-byte [substr], the only use in [net/url]
    ([Count] then counts the occurrences of that byte). *)
Fixpoint CountByte (s : string) (c : ascii) : nat :=
  match s with
  | EmptyString => 0
  | String d s' => (if Ascii.eqb d c then 1 else 0) + CountByte s' c
  end.

(** [Cut(s, sep)]: [(before, after, found)]. *)
Definition Cut (s sep : string) : string * string * bool :=
  match Index s sep with
  | Some i => (take i s, drop (i + String.length sep) s, true)
  | None => (s, EmptyString, false)
  end.

(** [ToLower] on a string of ASCII bytes: 'A'..'Z' are mapped to 'a'..'z'.
    Its one use is on a scheme, which [getScheme] makes of ASCII letters,
    digits, '+', '-' and '.'. *)
Definition lower (c : ascii) : ascii :=
  if between "A" c "Z" then ascii_of_nat (nat_of_ascii c + 32) else c.

Fixpoint ToLower (s : string) : string :=
  match s with
  | EmptyString => EmptyString
  | String c s' => String (lower c) (ToLower s')
  end.

End strings.

(** ** Package [net/url] *)

Module url.

Inductive encoding :=
| encodePath | encodePathSegment | encodeHost | encodeZone
| encodeUserPassword | encodeQueryComponent | encodeFragment.

Definition encoding_eqb (a b : encoding) : bool :=
  match a, b with
  | encodePath, encodePath | encodePathSegment, encodePathSegment
  | encodeHost, encodeHost | encodeZone, encodeZone
  | encodeUserPassword, encodeUserPassword
  | encodeQueryComponent, encodeQueryComponent
  | encodeFragment, encodeFragment => true
  | _, _ => false
  end.

(** The errors [Parse] can return, by the message that builds them. *)
Inductive parse_error :=
| InvalidControlCharacter        (* "net/url: invalid control character in URL" *)
| EmptyURL                       (* "empty url" *)
| InvalidURIForRequest           (* "invalid URI for request" *)
| MissingProtocolScheme          (* "missing protocol scheme" *)
| FirstPathSegmentColon          (* "first path segment in URL cannot contain colon" *)
| MissingBracket                 (* "missing ']' in host" *)
| InvalidPort (colonPort : string) (* "invalid port %q after host" *)
| InvalidUserinfo                (* "net/url: invalid userinfo" *)
| EscapeError (s : string)       (* "invalid URL escape %q" *)
| InvalidHostError (s : string). (* "invalid character %q in host name" *)

(** [*url.Error{Op, URL, Err}] *)
Record Error := mkError { Op : string; ErrURL : string; Err : parse_error }.

Record Userinfo := mkUserinfo
  { username : string; password : string; passwordSet : bool }.

(** The fields of [url.URL] that [Parse] sets. [RawPath] and [RawFragment]
    (hints about the original encoding, computed with [escape]) are left
    out: [rootCmd.Run] reads [Host] and [Path] only. *)
Record URL := mkURL
  { Scheme : string;
    Opaque : string;
    User : option Userinfo;
    Host : string;
    Path : string;
    OmitHost : bool;
    ForceQuery : bool;
    RawQuery : string;
    Fragment : string }.

Definition ishex (c : ascii) : bool :=
  between "0" c "9" || between "a" c "f" || between "A" c "F".

Definition unhex (c : ascii) : nat :=
  if between "0" c "9" then nat_of_ascii c - nat_of_ascii "0"
  else if between "a" c "f" then nat_of_ascii c - nat_of_ascii "a" + 10
  else if between "A" c "F" then nat_of_ascii c - nat_of_ascii "A" + 10
  else 0.

(** [unhex(a)<<4 | unhex(b)] *)
Definition hexbyte (a b : ascii) : ascii := ascii_of_nat (16 * unhex a + unhex b).

Definition shouldEscape (c : ascii) (mode : encoding) : bool :=
  if between "a" c "z" || between "A" c "Z" || between "0" c "9" then false
  else if (encoding_eqb mode encodeHost || encoding_eqb mode encodeZone)
          && (oneof c "!$&'()*+,;=:[]<>" || Ascii.eqb c DQUOTE) then false
  else if oneof c "-_.~" then false
  else if oneof c "$&+,/:;=?@" then
    match mode with
    | encodePath => Ascii.eqb c "?"
    | encodePathSegment => oneof c "/;,?"
    | encodeUserPassword => oneof c "@/?:"
    | encodeQueryComponent => true
    | encodeFragment => false
    | encodeHost | encodeZone => true
    end
  else if encoding_eqb mode encodeFragment && oneof c "!()*" then false
  else true.

(** First loop of [unescape]: checks the escapes, counts them in [n] and
    tracks [hasPlus]. *)
Fixpoint unescape_scan (mode : encoding) (s : string) (n : nat) (hasPlus : bool)
  : parse_error + (nat * bool) :=
  match s with
  | EmptyString => inr (n, hasPlus)
  | String c s1 =>
      if Ascii.eqb c "%" then
        match s1 with
        | String h1 (String h2 s3) =>
            if negb (ishex h1) || negb (ishex h2) then
              inl (EscapeError (strings.take 3 s))
            else
              let esc := strings.take 3 s in
              if encoding_eqb mode encodeHost && (unhex h1 <? 8)
                 && negb (String.eqb esc "%25") then
                inl (EscapeError esc)
              else if encoding_eqb mode encodeZone
                      && negb (String.eqb esc "%25")
                      && negb (Ascii.eqb (hexbyte h1 h2) " ")
                      && shouldEscape (hexbyte h1 h2) encodeHost then
                inl (EscapeError esc)
              else unescape_scan mode s3 (S n) hasPlus
        | _ => inl (EscapeError (strings.take 3 s))
        end
      else if Ascii.eqb c "+" then
        unescape_scan mode s1 n (encoding_eqb mode encodeQueryComponent)
      else if (encoding_eqb mode encodeHost || encoding_eqb mode encodeZone)
              && (nat_of_ascii c <? 128) && shouldEscape c encodeHost then
        inl (InvalidHostError (String c EmptyString))
      else unescape_scan mode s1 n hasPlus
  end.

(** Second loop of [unescape]: decodes a string the first loop accepted. *)
Fixpoint unescape_decode (mode : encoding) (s : string) : string :=
  match s with
  | EmptyString => EmptyString
  | String c s1 =>
      if Ascii.eqb c "%" then
        match s1 with
        | String h1 (String h2 s3) =>
            String (hexbyte h1 h2) (unescape_decode mode s3)
        | _ => EmptyString
        end
      else if Ascii.eqb c "+" then
        String (if encoding_eqb mode encodeQueryComponent then " "%char else "+"%char)
               (unescape_decode mode s1)
      else String c (unescape_decode mode s1)
  end.

Definition unescape (s : string) (mode : encoding) : parse_error + string :=
  match unescape_scan mode s 0 false with
  | inl e => inl e
  | inr (n, hasPlus) =>
      if (n =? 0) && negb hasPlus then inr s
      else inr (unescape_decode mode s)
  end.

Definition stringContainsCTLByte (s : string) : bool :=
  existsb (fun b => (nat_of_ascii b <? 32) || (nat_of_ascii b =? 127))
          (list_ascii_of_string s).

(** The loop of [getScheme]: [rest] is [rawURL[i:]]. *)
Fixpoint getScheme_loop (rawURL : string) (i : nat) (rest : string)
  : parse_error + (string * string) :=
  match rest with
  | EmptyString => inr (EmptyString, rawURL)
  | String c rest' =>
      if between "a" c "z" || between "A" c "Z" then
        getScheme_loop rawURL (S i) rest'
      else if between "0" c "9" || oneof c "+-." then
        if i =? 0 then inr (EmptyString, rawURL)
        else getScheme_loop rawURL (S i) rest'
      else if Ascii.eqb c ":" then
        if i =? 0 then inl MissingProtocolScheme
        else inr (strings.take i rawURL, strings.drop (S i) rawURL)
      else inr (EmptyString, rawURL)
  end.

Definition getScheme (rawURL : string) : parse_error + (string * string) :=
  getScheme_loop rawURL 0 rawURL.

Fixpoint all_digits (s : string) : bool :=
  match s with
  | EmptyString => true
  | String b s' => between "0" b "9" && all_digits s'
  end.

Definition validOptionalPort (port : string) : bool :=
  match port with
  | EmptyString => true
  | String c port' => if Ascii.eqb c ":" then all_digits port' else false
  end.

(** [validUserinfo] ranges over runes; every rune it accepts is one ASCII
    byte, and a byte of a multi-byte rune is never accepted, so the test
    byte by byte is the same. *)
Fixpoint validUserinfo (s : string) : bool :=
  match s with
  | EmptyString => true
  | String r s' =>
      (between "A" r "Z" || between "a" r "z" || between "0" r "9"
       || oneof r "-._:~!$&'()*+,;=%@")
      && validUserinfo s'
  end.

Definition parseHost (host : string) : parse_error + string :=
  let plain := unescape host encodeHost in
  if strings.HasPrefix host "[" then
    match strings.LastIndex host "]" with
    | None => inl MissingBracket
    | Some i =>
        let colonPort := strings.drop (S i) host in
        if negb (validOptionalPort colonPort) then inl (InvalidPort colonPort)
        else
          match strings.Index (strings.take i host) "%25" with
          | Some zone =>
              match unescape (strings.take zone host) encodeHost with
              | inl e => inl e
              | inr host1 =>
                  match unescape (strings.take (i - zone) (strings.drop zone host)) encodeZone with
                  | inl e => inl e
                  | inr host2 =>
                      match unescape (strings.drop i host) encodeHost with
                      | inl e => inl e
                      | inr host3 => inr (host1 ++ host2 ++ host3)
                      end
                  end
              end
          | None => plain
          end
    end
  else
    match strings.LastIndex host ":" with
    | Some i =>
        let colonPort := strings.drop i host in
        if negb (validOptionalPort colonPort) then inl (InvalidPort colonPort)
        else plain
    | None => plain
    end.

Definition parseAuthority (authority : string)
  : parse_error + (option Userinfo * string) :=
  let i := strings.LastIndex authority "@" in
  match (match i with
         | None => parseHost authority
         | Some i => parseHost (strings.drop (S i) authority)
         end) with
  | inl e => inl e
  | inr host =>
      match i with
      | None => inr (None, host)
      | Some i =>
          let userinfo := strings.take i authority in
          if negb (validUserinfo userinfo) then inl InvalidUserinfo
          else if negb (strings.Contains userinfo ":") then
            match unescape userinfo encodeUserPassword with
            | inl e => inl e
            | inr u => inr (Some (mkUserinfo u EmptyString false), host)
            end
          else
            let '(username, password, _) := strings.Cut userinfo ":" in
            match unescape username encodeUserPassword with
            | inl e => inl e
            | inr username =>
                match unescape password encodeUserPassword with
                | inl e => inl e
                | inr password => inr (Some (mkUserinfo username password true), host)
                end
            end
      end
  end.

Definition is_empty (s : string) : bool :=
  match s with EmptyString => true | _ => false end.

(** [parse], the query: a lone trailing '?' sets [ForceQuery], otherwise the
    text is cut at its first '?'. The result is [(rest, ForceQuery, RawQuery)]. *)
Definition split_query (rest : string) : string * bool * string :=
  if strings.HasSuffix rest "?" && (strings.CountByte rest "?" =? 1) then
    (strings.take (String.length rest - 1) rest, true, EmptyString)
  else
    let '(r, q, _) := strings.Cut rest "?" in (r, false, q).

(** [parse], the authority: [(User, Host, OmitHost, rest)]. *)
Definition parse_authority_part (viaRequest : bool) (scheme rest : string)
  : parse_error + (option Userinfo * string * bool * string) :=
  if (negb (is_empty scheme)
      || (negb viaRequest && negb (strings.HasPrefix rest "///")))
     && strings.HasPrefix rest "//" then
    let authority0 := strings.drop 2 rest in
    let '(authority, rest') :=
      match strings.Index authority0 "/" with
      | Some i => (strings.take i authority0, strings.drop i authority0)
      | None => (authority0, EmptyString)
      end in
    match parseAuthority authority with
    | inl e => inl e
    | inr (user, host) => inr (user, host, false, rest')
    end
  else if negb (is_empty scheme) && strings.HasPrefix rest "/" then
    inr (None, EmptyString, true, rest)
  else inr (None, EmptyString, false, rest).

(** [parse] from the authority on, ending with [setPath]. *)
Definition parse_hier (viaRequest : bool) (scheme rest : string)
           (forceQuery : bool) (rawQuery : string) : parse_error + URL :=
  match parse_authority_part viaRequest scheme rest with
  | inl e => inl e
  | inr (user, host, omitHost, rest') =>
      match unescape rest' encodePath with
      | inl e => inl e
      | inr path =>
          inr (mkURL scheme EmptyString user host path
                     omitHost forceQuery rawQuery EmptyString)
      end
  end.

(** [parse] after [getScheme], for the scheme [scheme] (already
    lower-cased) and the text [rest0] that follows it. *)
Definition parse_after_scheme (viaRequest : bool) (scheme rest0 : string)
  : parse_error + URL :=
  let '(rest, forceQuery, rawQuery) := split_query rest0 in
  if negb (strings.HasPrefix rest "/") then
    if negb (is_empty scheme) then
      (* a rootless path is opaque *)
      inr (mkURL scheme rest None EmptyString EmptyString
                 false forceQuery rawQuery EmptyString)
    else if viaRequest then inl InvalidURIForRequest
    else
      let '(segment, _, _) := strings.Cut rest "/" in
      if strings.Contains segment ":" then inl FirstPathSegmentColon
      else parse_hier viaRequest scheme rest forceQuery rawQuery
  else parse_hier viaRequest scheme rest forceQuery rawQuery.

(** [parse(rawURL, viaRequest)]; [Parse] calls it with [viaRequest = false]. *)
Definition parse (rawURL : string) (viaRequest : bool) : parse_error + URL :=
  if stringContainsCTLByte rawURL then inl InvalidControlCharacter
  else if is_empty rawURL && viaRequest then inl EmptyURL
  else if String.eqb rawURL "*" then
    inr (mkURL EmptyString EmptyString None EmptyString "*"
               false false EmptyString EmptyString)
  else
    match getScheme rawURL with
    | inl e => inl e
    | inr (scheme, rest) =>
        parse_after_scheme viaRequest (strings.ToLower scheme) rest
    end.

Definition setFragment (u : URL) (f : string) : parse_error + URL :=
  match unescape f encodeFragment with
  | inl e => inl e
  | inr frag =>
      inr (mkURL (Scheme u) (Opaque u) (User u) (Host u) (Path u)
                 (OmitHost u) (ForceQuery u) (RawQuery u) frag)
  end.

Definition Parse (rawURL : string) : Error + URL :=
  let '(u, frag, _) := strings.Cut rawURL "#" in
  match parse u false with
  | inl e => inl (mkError "parse" u e)
  | inr url =>
      if is_empty frag then inr url
      else match setFragment url frag with
           | inl e => inl (mkError "parse" rawURL e)
           | inr url' => inr url'
           end
  end.

Definition splitHostPort (hostPort : string) : string * string :=
  let host := hostPort in
  let '(host, port) :=
    match strings.LastIndexByte host ":" with
    | Some colon =>
        if validOptionalPort (strings.drop colon host)
        then (strings.take colon host, strings.drop (S colon) host)
        else (host, EmptyString)
    | None => (host, EmptyString)
    end in
  let host :=
    if strings.HasPrefix host "[" && strings.HasSuffix host "]"
    then strings.take (String.length host - 2) (strings.drop 1 host)
    else host in
  (host, port).

Definition Hostname (u : URL) : string := fst (splitHostPort (Host u)).
Definition Port (u : URL) : string := snd (splitHostPort (Host u)).

End url.

(** ** Package [fmt] and the builtin [println] *)

Module fmt.

(** [printArg] for an operand of type string under the verb [verb]:
    [%s] and [%v] print it as it is, another verb prints
    [%!verb(string=operand)]. *)
Definition printArg (arg : string) (verb : ascii) : string :=
  if Ascii.eqb verb "s" || Ascii.eqb verb "v" then arg
  else "%!" ++ String verb ("(string=" ++ arg ++ ")").

(** The operands left over when the format is used up:
    [%!(EXTRA string=a, string=b)]. *)
Fixpoint extra_list (a : list string) : string :=
  match a with
  | [] => EmptyString
  | [x] => "string=" ++ x
  | x :: a' => "string=" ++ x ++ ", " ++ extra_list a'
  end.

Definition extra (a : list string) : string :=
  match a with
  | [] => EmptyString
  | _ => "%!(EXTRA " ++ extra_list a ++ ")"
  end.

(** [doPrintf] on operands of type string. The directives modelled are
    [%s], [%v] and [%%]; flags, width, precision, argument indexes and the
    verbs [%q], [%x], [%X] are outside the model (no format string of
    [root.go] has them). *)
Fixpoint doPrintf (format : string) (a : list string) : string :=
  match format with
  | EmptyString => extra a
  | String c f1 =>
      if Ascii.eqb c "%" then
        match f1 with
        | EmptyString => "%!(NOVERB)" ++ extra a
        | String verb f2 =>
            if Ascii.eqb verb "%" then String "%" (doPrintf f2 a)
            else
              match a with
              | [] => "%!" ++ String verb ("(MISSING)" ++ doPrintf f2 [])
              | x :: a' => printArg x verb ++ doPrintf f2 a'
              end
        end
      else String c (doPrintf f1 a)
  end.

Definition Sprintf (format : string) (a : list string) : string :=
  doPrintf format a.

(** [Sprintln]: the operands separated by spaces, then a newline. *)
Definition Sprintln (a : list string) : string :=
  String.concat " " a ++ String LF EmptyString.

End fmt.

(** ** The Go runtime the program runs on *)

(** The [error] values the program can meet. *)
Inductive error :=
| ErrParse (e : url.Error)              (* *url.Error, from url.Parse *)
| ErrOp (op : string) (detail : string) (* *net.OpError, from Dial, Read, Write, Close *)
| EOF                                   (* io.EOF *)
| ErrRuntime (msg : string).            (* runtime.Error, e.g. index out of range *)

(** What a TCP peer does with the connection: the bytes it has delivered by
    the time a read is served, and how its stream ends once they are
    consumed. *)
Inductive stream_end :=
| NeverEnds                      (* the peer stays silent: a read blocks *)
| PeerClosed                     (* orderly shutdown: a read returns 0, io.EOF *)
| ReadFails (detail : string).   (* e.g. connection reset by peer *)

Record Peer := mkPeer { incoming : string; ending : stream_end }.

(** The network: [connect network address] is the peer that answers, or the
    reason the dial fails (resolution failure, refusal, unreachable). *)
Record World := mkWorld { connect : string -> string -> string + Peer }.

Record socket := mkSocket
  { sock_end : stream_end;   (* how the peer's stream ends *)
    unread : string;         (* bytes received and not yet read *)
    sent : string;           (* bytes written so far *)
    closed : bool }.

Inductive event :=
| EvStderr (s : string)                       (* a write to standard error *)
| EvStdout (s : string)                       (* a write to standard output *)
| EvDial (network address : string)           (* net.Dial called *)
| EvWrite (fd : nat) (p : string)             (* conn.Write(p) on an open socket *)
| EvRead (fd cap : nat) (data : string) (err : option error) (* conn.Read returned *)
| EvClose (fd : nat).                         (* conn.Close() called *)

(** A deferred call; the program defers [conn.Close()] only. *)
Inductive deferred := DeferClose (fd : nat).

Record state := mkState
  { trace : list event;      (* observable I/O, oldest first *)
    socks : list socket;     (* the sockets opened so far; a conn is an index *)
    defers : list deferred } (* the running function's deferred calls, newest first *).

Definition init : state := mkState [] [] [].

(** A statement either completes with a value, panics, or blocks for ever. *)
Inductive result (A : Type) :=
| Ret (a : A)
| Panic (e : error)
| Block.
Arguments Ret {A} a.
Arguments Panic {A} e.
Arguments Block {A}.

Definition Go (A : Type) : Type := state -> result A * state.

Definition ret {A} (a : A) : Go A := fun st => (Ret a, st).

Definition bind {A B} (m : Go A) (k : A -> Go B) : Go B :=
  fun st =>
    match m st with
    | (Ret a, st') => k a st'
    | (Panic e, st') => (Panic e, st')
    | (Block, st') => (Block, st')
    end.

Declare Scope go_scope.
Delimit Scope go_scope with go.
Notation "x <- m ;; k" := (bind m (fun x => k))
  (at level 61, m at next level, right associativity) : go_scope.
Notation "m ;; k" := (bind m (fun _ => k))
  (at level 61, right associativity) : go_scope.
Open Scope go_scope.

Definition panic {A} (e : error) : Go A := fun st => (Panic e, st).

Definition emit (e : event) : Go unit :=
  fun st => (Ret tt, mkState (trace st ++ [e]) (socks st) (defers st)).

Definition defer (d : deferred) : Go unit :=
  fun st => (Ret tt, mkState (trace st) (socks st) (d :: defers st)).

(** [xs[i] = x] on a list that has an index [i]. *)
Fixpoint set_nth {A} (i : nat) (x : A) (xs : list A) : list A :=
  match i, xs with
  | 0, _ :: xs' => x :: xs'
  | S i', y :: xs' => y :: set_nth i' x xs'
  | _, [] => []
  end.

Definition set_sock (fd : nat) (s : socket) : Go unit :=
  fun st => (Ret tt, mkState (trace st) (set_nth fd s (socks st)) (defers st)).

Definition use_of_closed (op : string) : error :=
  ErrOp op "use of closed network connection".

(** [args[i]]: a run-time panic when [i] is out of range. *)
Definition index (args : list string) (i : nat) : Go string :=
  match nth_error args i with
  | Some a => ret a
  | None => panic (ErrRuntime "index out of range")
  end.

(** The builtin [println]: its operands separated by spaces and a newline,
    on standard error. *)
Definition println (a : list string) : Go unit :=
  emit (EvStderr (String.concat " " a ++ String LF EmptyString)).

(** [fmt.Println]: one write to standard output. *)
Definition fmt_Println (a : list string) : Go unit :=
  emit (EvStdout (fmt.Sprintln a)).

(** [make([]byte, n)]: [n] zero bytes. *)
Fixpoint make_bytes (n : nat) : string :=
  match n with
  | 0 => EmptyString
  | S n' => String zero (make_bytes n')
  end.

(** [net.Dial(network, address)]: a fresh socket, or the dial error. *)
Definition net_Dial (w : World) (network address : string) : Go (nat + error) :=
  emit (EvDial network address) ;;
  match connect w network address with
  | inl detail => ret (inr (ErrOp "dial" detail))
  | inr p =>
      fun st =>
        (Ret (inl (List.length (socks st))),
         mkState (trace st)
                 (socks st ++ [mkSocket (ending p) (incoming p) EmptyString false])
                 (defers st))
  end.

(** [conn.Write(p)]: the bytes are handed to an open socket as a whole. *)
Definition conn_Write (fd : nat) (p : string) : Go (nat * option error) :=
  fun st =>
    match nth_error (socks st) fd with
    | Some s =>
        if closed s then (Ret (0, Some (use_of_closed "write")), st)
        else
          (emit (EvWrite fd p) ;;
           set_sock fd (mkSocket (sock_end s) (unread s) (sent s ++ p) false) ;;
           ret (String.length p, None)) st
    | None => (Panic (ErrRuntime "invalid memory address or nil pointer dereference"), st)
    end.

(** [fmt.Fprintf(w, format, a...)]: formats, then one [Write] of the result. *)
Definition fmt_Fprintf (fd : nat) (format : string) (a : list string)
  : Go (nat * option error) :=
  conn_Write fd (fmt.Sprintf format a).

(** [conn.Read(buf)] on a TCP socket: at most [len(buf)] of the bytes
    received, copied to the front of [buf]; with nothing left to read,
    [0, io.EOF] after an orderly shutdown, [0, err] after a failure, and
    no return at all while the peer stays silent. The result is
    [(n, err, buf)] with [buf] as the call leaves it. *)
Definition conn_Read (fd : nat) (buf : string) : Go (nat * option error * string) :=
  fun st =>
    match nth_error (socks st) fd with
    | Some s =>
        let cap := String.length buf in
        if closed s then
          (emit (EvRead fd cap EmptyString (Some (use_of_closed "read"))) ;;
           ret (0, Some (use_of_closed "read"), buf)) st
        else if cap =? 0 then
          (emit (EvRead fd cap EmptyString None) ;; ret (0, None, buf)) st
        else
          match unread s with
          | EmptyString =>
              match sock_end s with
              | NeverEnds => (Block, st)   (* no return: the read blocks *)
              | PeerClosed =>
                  (emit (EvRead fd cap EmptyString (Some EOF)) ;;
                   ret (0, Some EOF, buf)) st
              | ReadFails detail =>
                  (emit (EvRead fd cap EmptyString (Some (ErrOp "read" detail))) ;;
                   ret (0, Some (ErrOp "read" detail), buf)) st
              end
          | _ =>
              let n := Nat.min cap (String.length (unread s)) in
              let data := strings.take n (unread s) in
              (emit (EvRead fd cap data None) ;;
               set_sock fd (mkSocket (sock_end s) (strings.drop n (unread s)) (sent s) false) ;;
               ret (n, None, data ++ strings.drop n buf)) st
          end
    | None => (Panic (ErrRuntime "invalid memory address or nil pointer dereference"), st)
    end.

(** [conn.Close()]: every call is an event of the trace; the first one on
    a socket closes it, a later one finds it closed and returns an error. *)
Definition conn_Close (fd : nat) : Go (option error) :=
  fun st =>
    match nth_error (socks st) fd with
    | Some s =>
        if closed s then
          (emit (EvClose fd) ;; ret (Some (use_of_closed "close"))) st
        else
          (emit (EvClose fd) ;;
           set_sock fd (mkSocket (sock_end s) (unread s) (sent s) true) ;;
           ret None) st
    | None => (Panic (ErrRuntime "invalid memory address or nil pointer dereference"), st)
    end.

(** Running the deferred calls, newest first. A deferred [Close] returns an
    error that nobody reads. *)
Definition run_deferred (st : state) (d : deferred) : state :=
  match d with
  | DeferClose fd => snd (conn_Close fd st)
  end.

(** A function call: the body runs with its own list of deferred calls;
    these run when the body returns and also when it panics, not while it
    is blocked. *)
Definition call {A} (body : Go A) : Go A :=
  fun st =>
    let '(r, st1) := body (mkState (trace st) (socks st) []) in
    match r with
    | Block => (Block, st1)
    | _ =>
        let st2 := fold_left run_deferred (defers st1)
                             (mkState (trace st1) (socks st1) []) in
        (r, mkState (trace st2) (socks st2) (defers st))
    end.

(** ** [cmd/root.go] *)

Module cmd.

(** The three variables [host], [port], [path] of [rootCmd.Run]. *)
Record RequestTarget := mkTarget { host : string; port : string; path : string }.

(** Lines 34-40: [u.Hostname()], [u.Port()], [u.Path] and the default port. *)
Definition resolve (u : url.URL) : RequestTarget :=
  let host := url.Hostname u in
  let port := url.Port u in
  let path := url.Path u in
  let port := if String.eqb port EmptyString then "80" else port in
  mkTarget host port path.

(** The format string of line 53. *)
Definition request_format : string :=
  "GET %s HTTP/1.0" ++ CRLF ++ "Host: %s" ++ CRLF ++ CRLF.

(** The size of the buffer of line 55. *)
Definition bufsize : nat := 1024.

(** Lines 46-61: dial, deferred close, request, one read, print. *)
Definition exchange (w : World) (t : RequestTarget) : Go unit :=
  r <- net_Dial w "tcp" (fmt.Sprintf "%s:%s" [host t; port t]) ;;
  match r with
  | inr err => panic err
  | inl conn =>
      defer (DeferClose conn) ;;
      fmt_Fprintf conn request_format [path t; host t] ;;
      let buf := make_bytes bufsize in
      r <- conn_Read conn buf ;;
      let '(n, err, buf) := r in
      match err with
      | Some e => panic e
      | None => fmt_Println [strings.take n buf]
      end
  end.

(** The closure [rootCmd.Run], lines 28-62. *)
Definition Run (w : World) (args : list string) : Go unit :=
  arg0 <- index args 0 ;;
  match url.Parse arg0 with
  | inl err => panic (ErrParse err)
  | inr u =>
      let t := resolve u in
      println ["Host:"; host t] ;;
      println ["Port:"; port t] ;;
      println ["Path:"; path t] ;;
      exchange w t
  end.

(** How the process ends. *)
Inductive outcome :=
| Exited (code : nat)     (* main returned, or os.Exit(code) *)
| Crashed (e : error)     (* an unrecovered panic: exit status 2 *)
| Hung.                   (* blocked for ever *)

Definition exit_status (o : outcome) : option nat :=
  match o with
  | Exited code => Some code
  | Crashed _ => Some 2
  | Hung => None
  end.

(** [Execute] from the point where cobra has taken the flags off the
    command line and is left with the positional arguments [args] of the
    root command. [Args: cobra.ExactArgs(1)] makes [rootCmd.Execute()]
    return an error unless there is exactly one, and [Execute] then calls
    [os.Exit(1)]; the usage text cobra prints in that case is not modelled.
    A command line that cobra answers by itself, without calling [Run]
    (the help flag, a completion request, a flag it does not know), is no
    input of this function: cobra is not part of the repository. *)
Definition Execute (w : World) (args : list string) : outcome * state :=
  if List.length args =? 1 then
    match call (Run w args) init with
    | (Ret _, st) => (Exited 0, st)
    | (Panic e, st) => (Crashed e, st)
    | (Block, st) => (Hung, st)
    end
  else (Exited 1, init).

(** What an execution shows. *)
Definition stdout_of (tr : list event) : string :=
  String.concat EmptyString
    (flat_map (fun e => match e with EvStdout s => [s] | _ => [] end) tr).

Definition writes_of (tr : list event) : list string :=
  flat_map (fun e => match e with EvWrite _ p => [p] | _ => [] end) tr.

Definition dials_of (tr : list event) : list (string * string) :=
  flat_map (fun e => match e with EvDial n a => [(n, a)] | _ => [] end) tr.

Definition reads_of (tr : list event) : list (string * option error) :=
  flat_map (fun e => match e with EvRead _ _ d err => [(d, err)] | _ => [] end) tr.

(** The number of calls of [conn.Close()]. *)
Definition closes_of (tr : list event) : nat :=
  List.length (flat_map (fun e => match e with EvClose fd => [fd] | _ => [] end) tr).

Definition open_sockets (st : state) : nat :=
  List.length (filter (fun s => negb (closed s)) (socks st)).

End cmd.

(** ** The vocabulary of the specification *)

Module spec.

Import cmd.

(** The request as the specification words it:
    [GET {path} HTTP/1.0\r\nHost: {host}\r\n\r\n]. *)
Definition wire_request (t : RequestTarget) : string :=
  "GET " ++ path t ++ " HTTP/1.0" ++ CRLF ++ "Host: " ++ host t ++ CRLF ++ CRLF.

(** The address the specification has the connection opened to: [host:port]. *)
Definition address (t : RequestTarget) : string := host t ++ ":" ++ port t.

(** The RequestTarget an input resolves to, when it parses. *)
Definition target_of (rawURL : string) : option RequestTarget :=
  match url.Parse rawURL with
  | inr u => Some (resolve u)
  | inl _ => None
  end.

(** The three lines [rootCmd.Run] prints on standard error. *)
Definition banner (t : RequestTarget) : list event :=
  [ EvStderr (String.concat " " ["Host:"; host t] ++ String LF EmptyString);
    EvStderr (String.concat " " ["Port:"; port t] ++ String LF EmptyString);
    EvStderr (String.concat " " ["Path:"; path t] ++ String LF EmptyString) ].

(** A scheme, as [getScheme] recognises one: a letter, then letters,
    digits, '+', '-' and '.'. *)
Definition scheme_byte (c : ascii) : bool :=
  between "a" c "z" || between "A" c "Z" || between "0" c "9" || oneof c "+-.".

Fixpoint scheme_bytes (s : string) : bool :=
  match s with
  | EmptyString => true
  | String c s' => scheme_byte c && scheme_bytes s'
  end.

Definition is_scheme (s : string) : bool :=
  match s with
  | EmptyString => false
  | String c s' => (between "a" c "z" || between "A" c "Z") && scheme_bytes s'
  end.

(** [s] has no byte [c]. *)
Fixpoint lacks (c : ascii) (s : string) : bool :=
  match s with
  | EmptyString => true
  | String d s' => negb (Ascii.eqb d c) && lacks c s'
  end.

(** [u] with another scheme, and with another query. *)
Definition with_scheme (scheme : string) (u : url.URL) : url.URL :=
  url.mkURL scheme (url.Opaque u) (url.User u) (url.Host u) (url.Path u)
            (url.OmitHost u) (url.ForceQuery u) (url.RawQuery u) (url.Fragment u).

Definition with_query (forceQuery : bool) (rawQuery : string) (u : url.URL) : url.URL :=
  url.mkURL (url.Scheme u) (url.Opaque u) (url.User u) (url.Host u) (url.Path u)
            (url.OmitHost u) forceQuery rawQuery (url.Fragment u).

Definition map_inr {E A B} (f : A -> B) (r : E + A) : E + B :=
  match r with
  | inl e => inl e
  | inr a => inr (f a)
  end.

(** Every byte of [s] satisfies [f]. *)
Fixpoint all_bytes (f : ascii -> bool) (s : string) : bool :=
  match s with
  | EmptyString => true
  | String c s' => f c && all_bytes f s'
  end.

(** A plain host name: letters, digits, '-' and '.'. *)
Definition host_byte (c : ascii) : bool :=
  between "a" c "z" || between "A" c "Z" || between "0" c "9" || oneof c "-.".

(** A plain path: empty or beginning with '/', and without '?', '#', '%'
    and control bytes. *)
Definition plain_path (s : string) : bool :=
  (url.is_empty s || strings.HasPrefix s "/")
  && lacks "?" s && lacks "#" s && lacks "%" s
  && negb (url.stringContainsCTLByte s).

(** The bytes that [unescape] in host mode passes over and keeps. *)
Definition host_plain (c : ascii) : bool :=
  negb (Ascii.eqb c "%") && negb (Ascii.eqb c "+")
  && negb ((nat_of_ascii c <? 128) && url.shouldEscape c url.encodeHost).

(** What may follow the query of a URL: nothing, or '#' and a fragment. *)
Definition fragment_or_nothing (tail : string) : bool :=
  match tail with
  | EmptyString => true
  | String c _ => Ascii.eqb c "#"
  end.

(** Peers and networks for the worked examples. *)
Definition serving (p : Peer) : World := mkWorld (fun _ _ => inr p).
Definition refusing : World := mkWorld (fun _ _ => inl "connection refused").

(** The stub server of the end-to-end scenario: it writes
    [HTTP/1.0 200 OK\r\n\r\nhi] and closes. *)
Definition stub_reply : string := "HTTP/1.0 200 OK" ++ CRLF ++ CRLF ++ "hi".
Definition stub_server : World := serving (mkPeer stub_reply PeerClosed).

(** A peer that closes the connection without sending a byte. *)
Definition closing_at_once : World := serving (mkPeer EmptyString PeerClosed).

(** A peer whose connection breaks before it sends a byte. *)
Definition resetting : World :=
  serving (mkPeer EmptyString (ReadFails "connection reset by peer")).

(** A peer that has delivered 1124 bytes when the read is served. *)
Definition long_reply : string := stub_reply ++ make_bytes 1103.
Definition verbose_server : World := serving (mkPeer long_reply PeerClosed).

(** A server that sends [response] and closes, as the program's read finds
    it: TCP delivers the bytes in order, and [conn.Read] returns as soon as
    some of them are there, without waiting for the rest; what the read
    finds is the first [arrived] bytes of [response]. The bytes that arrive
    after that read are not represented: the program reads once. *)
Definition sending (response : string) (arrived : nat) : Peer :=
  mkPeer (strings.take arrived response) PeerClosed.

(** A server that sends the 1124 bytes of [long_reply], 10 of which have
    arrived when the read is served. *)
Definition trickling_server : World := serving (sending long_reply 10).

End spec.

(** ** Executions in closed form

    What the exchange does is determined by the target and by the peer that
    answers the dial. The definitions below spell out the state it leaves;
    the lemmas [exchange_steps], [call_exchanged] and [Execute_steps] prove
    that the program does just that. *)

Import cmd spec.

(** What the single read of a fresh socket returns when the peer has
    delivered something: at most [bufsize] bytes of it. *)
Definition first_read (p : Peer) : string := strings.take bufsize (incoming p).

(** The state in which the body of the exchange stops, for the peer [p]
    that answered the dial; the deferred [Close] is still pending. *)
Definition exchanged (tr : list event) (t : RequestTarget) (p : Peer)
  : result unit * state :=
  let pre := (tr ++ [EvDial "tcp" (address t); EvWrite 0 (wire_request t)])%list in
  let sock u := [mkSocket (ending p) u (wire_request t) false] in
  match incoming p with
  | EmptyString =>
      match ending p with
      | NeverEnds => (Block, mkState pre (sock EmptyString) [DeferClose 0])
      | PeerClosed =>
          (Panic EOF,
           mkState (pre ++ [EvRead 0 bufsize EmptyString (Some EOF)])
                   (sock EmptyString) [DeferClose 0])
      | ReadFails d =>
          (Panic (ErrOp "read" d),
           mkState (pre ++ [EvRead 0 bufsize EmptyString (Some (ErrOp "read" d))])
                   (sock EmptyString) [DeferClose 0])
      end
  | _ =>
      (Ret tt,
       mkState (pre ++ [EvRead 0 bufsize (first_read p) None;
                        EvStdout (first_read p ++ String LF EmptyString)])
               (sock (strings.drop bufsize (incoming p)))
               [DeferClose 0])
  end.

(** The exchange as a function call: the state once its deferred [Close]
    has run, which it does on a return and on a panic alike. *)
Definition finished (tr : list event) (t : RequestTarget) (p : Peer)
  : result unit * state :=
  let pre := (tr ++ [EvDial "tcp" (address t); EvWrite 0 (wire_request t)])%list in
  let sock u c := [mkSocket (ending p) u (wire_request t) c] in
  match incoming p with
  | EmptyString =>
      match ending p with
      | NeverEnds => (Block, mkState pre (sock EmptyString false) [DeferClose 0])
      | PeerClosed =>
          (Panic EOF,
           mkState (pre ++ [EvRead 0 bufsize EmptyString (Some EOF); EvClose 0])
                   (sock EmptyString true) [])
      | ReadFails d =>
          (Panic (ErrOp "read" d),
           mkState (pre ++ [EvRead 0 bufsize EmptyString (Some (ErrOp "read" d));
                            EvClose 0])
                   (sock EmptyString true) [])
      end
  | _ =>
      (Ret tt,
       mkState (pre ++ [EvRead 0 bufsize (first_read p) None;
                        EvStdout (first_read p ++ String LF EmptyString);
                        EvClose 0])
               (sock (strings.drop bufsize (incoming p)) true)
               [])
  end.

(** How the process ends, from how the call of [Run] ends. *)
Definition outcome_of (r : result unit) : outcome :=
  match r with
  | Ret _ => Exited 0
  | Panic e => Crashed e
  | Block => Hung
  end.

(** The reads of an execution: at most one, and what it returned. *)
Definition the_read (p : Peer) : list (string * option error) :=
  match incoming p with
  | EmptyString =>
      match ending p with
      | NeverEnds => []
      | PeerClosed => [(EmptyString, Some EOF)]
      | ReadFails d => [(EmptyString, Some (ErrOp "read" d))]
      end
  | _ => [(first_read p, None)]
  end.

(** The final state of an execution on one argument, from the target the
    argument resolves to ([None] when it does not parse). *)
Definition final_state (w : World) (t : option RequestTarget) : state :=
  match t with
  | None => init
  | Some t =>
      match connect w "tcp" (address t) with
      | inl _ => mkState (banner t ++ [EvDial "tcp" (address t)]) [] []
      | inr p => snd (finished (banner t) t p)
      end
  end.

(** Case analysis on the 256 values of a byte. *)
Ltac by_cases_on_byte c :=
  destruct c as [[] [] [] [] [] [] [] []]; vm_compute;
  repeat split; intros; try reflexivity; try discriminate.


(** ** What an execution does on the network, and malformed escapes *)

(** The events on the network, in the order they happened: what is left of
    a trace without the writes to standard error and standard output. *)
Definition network_of (tr : list event) : list event :=
  filter (fun e => match e with
                   | EvStderr _ | EvStdout _ => false
                   | _ => true
                   end) tr.

(** The text after a '%' is not two hexadecimal digits. *)
Definition bad_escape (b : string) : bool :=
  match b with
  | String h1 (String h2 _) => negb (url.ishex h1) || negb (url.ishex h2)
  | _ => true
  end.

(** The text of a path as it may stand in a URL after the authority: empty
    or beginning with '/', without '?', '#' and control bytes; it may hold
    percent escapes. *)
Definition raw_path (s : string) : bool :=
  (url.is_empty s || strings.HasPrefix s "/")
  && lacks "?" s && lacks "#" s
  && negb (url.stringContainsCTLByte s).

(** A text in the place of a port that ends the authority: without ':',
    '@', '/', '?', '#' and control bytes. *)
Definition port_text (p : string) : bool :=
  lacks ":" p && lacks "@" p && lacks "/" p && lacks "?" p && lacks "#" p
  && negb (url.stringContainsCTLByte p).

(** The bytes [validUserinfo] accepts. *)
Definition userinfo_byte (r : ascii) : bool :=
  between "A" r "Z" || between "a" r "z" || between "0" r "9"
  || oneof r "-._:~!$&'()*+,;=%@".

(** A text in the place of [host[:port]]: without '@', '/', '?', '#' and
    control bytes. *)
Definition host_port_text (a : string) : bool :=
  lacks "@" a && lacks "/" a && lacks "?" a && lacks "#" a
  && negb (url.stringContainsCTLByte a).

(** * Properties *)

(** ** Strings and slices *)

Section Slices.

Lemma app_empty_r (s : string) : s ++ EmptyString = s.
Proof. induction s as [|c s IH]; simpl; [reflexivity | now rewrite IH]. Qed.

Lemma app_assoc_s (a b c : string) : (a ++ b) ++ c = a ++ (b ++ c).
Proof. induction a as [|x a IH]; simpl; [reflexivity | now rewrite IH]. Qed.

Lemma length_app_s (a b : string) :
  String.length (a ++ b) = String.length a + String.length b.
Proof. induction a as [|x a IH]; simpl; [reflexivity | now rewrite IH]. Qed.

Lemma length_take n s :
  String.length (strings.take n s) = Nat.min n (String.length s).
Proof. revert s; induction n as [|n IH]; intros [|c s]; simpl; auto. Qed.

Lemma take_app_exact a b : strings.take (String.length a) (a ++ b) = a.
Proof. induction a as [|c a IH]; simpl; [now destruct b | now rewrite IH]. Qed.

Lemma drop_app_exact a b : strings.drop (String.length a) (a ++ b) = b.
Proof. induction a as [|c a IH]; simpl; [now destruct b | exact IH]. Qed.

Lemma take_all n s : String.length s <= n -> strings.take n s = s.
Proof.
  revert n; induction s as [|c s IH]; intros [|n] H; simpl in *;
    try reflexivity; try lia.
  now rewrite IH by lia.
Qed.

Lemma take_min n s : strings.take (Nat.min n (String.length s)) s = strings.take n s.
Proof.
  revert s; induction n as [|n IH]; intros [|c s]; simpl; try reflexivity.
  now rewrite IH.
Qed.

Lemma drop_min n s : strings.drop (Nat.min n (String.length s)) s = strings.drop n s.
Proof.
  revert s; induction n as [|n IH]; intros [|c s]; simpl; try reflexivity.
  apply IH.
Qed.

(** [buf[:n]] after a read of [n] bytes is the bytes read. *)
Lemma take_read n u buf :
  let m := Nat.min n (String.length u) in
  strings.take m (strings.take m u ++ strings.drop m buf) = strings.take n u.
Proof.
  intros m.
  assert (Hm : String.length (strings.take m u) = m)
    by (rewrite length_take; subst m; lia).
  rewrite <- Hm at 1. rewrite take_app_exact. apply take_min.
Qed.

Lemma length_make_bytes n : String.length (make_bytes n) = n.
Proof. induction n; simpl; auto. Qed.

End Slices.

(** ** What [fmt] makes of the two format strings *)

Lemma Sprintf_request t :
  fmt.Sprintf request_format [path t; host t] = wire_request t.
Proof. reflexivity. Qed.

Lemma Sprintf_address t :
  fmt.Sprintf "%s:%s" [host t; port t] = address t.
Proof. unfold address. cbn. now rewrite app_empty_r. Qed.

(** ** One step of each socket operation *)

Section Steps.

Variables (tr : list event) (ss : list socket) (ds : list deferred).
Variables (fd : nat) (s : socket).
Hypothesis Hfd : nth_error ss fd = Some s.
Hypothesis Hopen : closed s = false.

Lemma conn_Write_open p :
  conn_Write fd p (mkState tr ss ds) =
  (Ret (String.length p, None),
   mkState (tr ++ [EvWrite fd p])
           (set_nth fd (mkSocket (sock_end s) (unread s) (sent s ++ p) false) ss) ds).
Proof. unfold conn_Write. cbn [socks]. rewrite Hfd, Hopen. reflexivity. Qed.

Lemma conn_Read_open buf :
  String.length buf <> 0 ->
  conn_Read fd buf (mkState tr ss ds) =
  match unread s with
  | EmptyString =>
      match sock_end s with
      | NeverEnds => (Block, mkState tr ss ds)
      | PeerClosed =>
          (Ret (0, Some EOF, buf),
           mkState (tr ++ [EvRead fd (String.length buf) EmptyString (Some EOF)]) ss ds)
      | ReadFails d =>
          (Ret (0, Some (ErrOp "read" d), buf),
           mkState (tr ++ [EvRead fd (String.length buf) EmptyString
                                  (Some (ErrOp "read" d))]) ss ds)
      end
  | _ =>
      let n := Nat.min (String.length buf) (String.length (unread s)) in
      (Ret (n, None, strings.take n (unread s) ++ strings.drop n buf),
       mkState (tr ++ [EvRead fd (String.length buf) (strings.take n (unread s)) None])
               (set_nth fd (mkSocket (sock_end s) (strings.drop n (unread s)) (sent s) false) ss)
               ds)
  end.
Proof.
  intros Hb. unfold conn_Read. cbn [socks]. rewrite Hfd, Hopen.
  destruct (Nat.eqb_spec (String.length buf) 0) as [E|_]; [contradiction|].
  destruct (unread s); [destruct (sock_end s)|]; reflexivity.
Qed.

Lemma conn_Close_open :
  conn_Close fd (mkState tr ss ds) =
  (Ret None,
   mkState (tr ++ [EvClose fd])
           (set_nth fd (mkSocket (sock_end s) (unread s) (sent s) true) ss) ds).
Proof. unfold conn_Close. cbn [socks]. rewrite Hfd, Hopen. reflexivity. Qed.

End Steps.

(** ** The exchange, step by step *)

Lemma exchange_steps w t tr :
  exchange w t (mkState tr [] []) =
  match connect w "tcp" (address t) with
  | inl d => (Panic (ErrOp "dial" d), mkState (tr ++ [EvDial "tcp" (address t)]) [] [])
  | inr p => exchanged tr t p
  end.
Proof.
  unfold exchange, exchanged, net_Dial, bind at 1.
  rewrite Sprintf_address. unfold emit at 1. cbn [trace socks defers].
  unfold bind at 1. cbn [trace socks defers].
  destruct (connect w "tcp" (address t)) as [d|p]; [reflexivity|].
  cbn [List.length app].
  unfold bind, defer, fmt_Fprintf. cbn [trace socks defers].
  rewrite Sprintf_request.
  erewrite conn_Write_open by reflexivity.
  cbn [set_nth sock_end unread sent append].
  erewrite conn_Read_open;
    [ | reflexivity | reflexivity | rewrite length_make_bytes; discriminate ].
  cbn [unread sock_end sent set_nth].
  rewrite length_make_bytes.
  destruct (incoming p) as [|c s] eqn:Hin.
  - destruct (ending p); rewrite <- ?app_assoc; reflexivity.
  - cbv zeta. unfold fmt_Println, emit, fmt.Sprintln, first_read.
    cbn [trace socks defers String.concat].
    rewrite <- !app_assoc. cbn [app].
    rewrite (take_read bufsize (String c s)), take_min, drop_min, Hin.
    reflexivity.
Qed.

Lemma call_exchanged tr t p :
  (let '(r, st1) := exchanged tr t p in
   match r with
   | Block => (Block, st1)
   | _ =>
       let st2 := fold_left run_deferred (defers st1)
                            (mkState (trace st1) (socks st1) []) in
       (r, mkState (trace st2) (socks st2) [])
   end) = finished tr t p.
Proof.
  unfold exchanged, finished.
  destruct (incoming p); [destruct (ending p)|];
    cbn; rewrite <- ?app_assoc; reflexivity.
Qed.

Lemma call_exchange_steps w t :
  call (exchange w t) init =
  match connect w "tcp" (address t) with
  | inl d => (Panic (ErrOp "dial" d), mkState [EvDial "tcp" (address t)] [] [])
  | inr p => finished [] t p
  end.
Proof.
  unfold call, init. cbn [trace socks defers].
  rewrite exchange_steps.
  destruct (connect w "tcp" (address t)) as [d|p]; [reflexivity|].
  apply call_exchanged.
Qed.

Lemma Run_steps w arg :
  Run w [arg] init =
  match url.Parse arg with
  | inl e => (Panic (ErrParse e), init)
  | inr u => exchange w (resolve u) (mkState (banner (resolve u)) [] [])
  end.
Proof.
  unfold Run, index. cbn [nth_error]. unfold bind at 1, ret.
  destruct (url.Parse arg) as [e|u]; reflexivity.
Qed.

(** Every execution on one argument, case by case. *)
Lemma Execute_steps w arg :
  Execute w [arg] =
  match url.Parse arg with
  | inl e => (Crashed (ErrParse e), init)
  | inr u =>
      let t := resolve u in
      match connect w "tcp" (address t) with
      | inl d =>
          (Crashed (ErrOp "dial" d),
           mkState (banner t ++ [EvDial "tcp" (address t)]) [] [])
      | inr p => (outcome_of (fst (finished (banner t) t p)),
                  snd (finished (banner t) t p))
      end
  end.
Proof.
  unfold Execute, call. cbn [List.length Nat.eqb]. unfold init at 1 2 3.
  cbn [trace socks defers]. fold init. rewrite Run_steps.
  destruct (url.Parse arg) as [e|u]; [reflexivity|].
  rewrite exchange_steps. cbv zeta.
  destruct (connect w "tcp" (address (resolve u))) as [d|p]; [reflexivity|].
  pose proof (call_exchanged (banner (resolve u)) (resolve u) p) as H.
  destruct (exchanged (banner (resolve u)) (resolve u) p) as [r st1].
  destruct (finished (banner (resolve u)) (resolve u) p) as [r' st'].
  destruct r; inversion H; subst; reflexivity.
Qed.

Lemma Execute_arity w args :
  List.length args <> 1 -> Execute w args = (Exited 1, init).
Proof.
  intros H. unfold Execute.
  destruct (Nat.eqb_spec (List.length args) 1); [contradiction | reflexivity].
Qed.

Lemma reads_of_Execute w arg :
  reads_of (trace (snd (Execute w [arg]))) =
  match url.Parse arg with
  | inl _ => []
  | inr u =>
      match connect w "tcp" (address (resolve u)) with
      | inl _ => []
      | inr p => the_read p
      end
  end.
Proof.
  rewrite Execute_steps.
  destruct (url.Parse arg) as [e|u]; [reflexivity|]. cbv zeta.
  destruct (connect w "tcp" (address (resolve u))) as [d|p]; [reflexivity|].
  unfold finished, the_read.
  destruct (incoming p); [destruct (ending p)|]; reflexivity.
Qed.

(** ** The request on the wire *)

(** C1. For every RequestTarget, what the exchange writes on the connection
    it opened is one write of exactly
    [GET {path} HTTP/1.0\r\nHost: {host}\r\n\r\n]: the trace has no other
    write, and the bytes the socket has been sent when the exchange is over
    are these and no more. When the dial fails there is no connection and
    nothing is written. *)
Theorem request_framing_exact (w : World) (t : RequestTarget) :
  let st := snd (call (exchange w t) init) in
  let request :=
    "GET " ++ path t ++ " HTTP/1.0" ++ CRLF ++ "Host: " ++ host t ++ CRLF ++ CRLF in
  match connect w "tcp" (host t ++ ":" ++ port t) with
  | inr _ => writes_of (trace st) = [request] /\ map sent (socks st) = [request]
  | inl _ => writes_of (trace st) = [] /\ socks st = []
  end.
Proof.
  cbv zeta. rewrite call_exchange_steps. unfold address.
  destruct (connect w "tcp" (host t ++ ":" ++ port t)) as [d|p].
  - split; reflexivity.
  - unfold finished.
    destruct (incoming p); [destruct (ending p)|]; split; reflexivity.
Qed.

(** The request of the specification's example, byte for byte. *)
Example request_for_example_com :
  writes_of (trace (snd (Execute stub_server ["http://example.com/get"])))
  = ["GET /get HTTP/1.0" ++ CRLF ++ "Host: example.com" ++ CRLF ++ CRLF].
Proof. vm_compute. reflexivity. Qed.

(** ** Input that does not parse *)

(** C3, as the code has it. When [url.Parse] returns an error the program
    panics with that error at once: the execution has an empty trace, so no
    dial was attempted and nothing was printed. *)
Theorem unparsable_input_panics_before_dial (w : World) (arg : string) (e : url.Error) :
  url.Parse arg = inl e ->
  Execute w [arg] = (Crashed (ErrParse e), init)
  /\ dials_of (trace (snd (Execute w [arg]))) = [].
Proof.
  intros H. rewrite Execute_steps, H. split; reflexivity.
Qed.

Lemma unparsable_input_panics_before_dial_witness :
  Execute refusing ["://example.com"]
  = (Crashed (ErrParse (url.mkError "parse" "://example.com" url.MissingProtocolScheme)),
     init)
  /\ dials_of (trace (snd (Execute refusing ["://example.com"]))) = [].
Proof.
  exact (unparsable_input_panics_before_dial refusing "://example.com" _ eq_refl).
Defined.

(** C3 fails for the input it names: ["not a url"] has no scheme, yet
    [url.Parse] accepts it as a relative reference with an empty host, and
    the program goes on to dial [":80"]. *)
Lemma schemeless_input_is_dialed :
  url.Parse "not a url"
  = inr (url.mkURL EmptyString EmptyString None EmptyString "not a url"
                   false false EmptyString EmptyString)
  /\ dials_of (trace (snd (Execute refusing ["not a url"]))) = [("tcp", ":80")]
  /\ fst (Execute refusing ["not a url"]) = Crashed (ErrOp "dial" "connection refused").
Proof. vm_compute. repeat split. Qed.

(** ** The single read *)

(** C4, as the code has it. After a successful dial: a short read of at
    least one byte is no error and the response is exactly the bytes the
    peer delivered; a peer that closes without sending a byte makes the read
    return [0, io.EOF], and the program panics with [io.EOF] like with any
    other read error; and a panic after the dial is always the error of the
    read, with nothing printed on standard output. *)
Theorem short_read_and_read_errors (w : World) (arg : string) (u : url.URL) (p : Peer) :
  url.Parse arg = inr u ->
  connect w "tcp" (address (resolve u)) = inr p ->
  let o := fst (Execute w [arg]) in
  let tr := trace (snd (Execute w [arg])) in
  (0 < String.length (incoming p) < bufsize ->
     o = Exited 0 /\ reads_of tr = [(incoming p, None)]
     /\ stdout_of tr = incoming p ++ String LF EmptyString)
  /\ (incoming p = EmptyString -> ending p = PeerClosed ->
     o = Crashed EOF /\ reads_of tr = [(EmptyString, Some EOF)])
  /\ (forall d, incoming p = EmptyString -> ending p = ReadFails d ->
     o = Crashed (ErrOp "read" d)
     /\ reads_of tr = [(EmptyString, Some (ErrOp "read" d))])
  /\ (forall e, o = Crashed e ->
                reads_of tr = [(EmptyString, Some e)] /\ stdout_of tr = EmptyString).
Proof.
  intros HP HC. cbv zeta. rewrite Execute_steps, HP. cbv zeta. rewrite HC.
  unfold finished, first_read.
  split; [|split; [|split]].
  - intros Hlen.
    destruct (incoming p) as [|c s] eqn:E; [simpl in Hlen; lia|].
    rewrite take_all by lia. repeat split.
  - intros Hin Hend. rewrite Hin, Hend. split; reflexivity.
  - intros d Hin Hend. rewrite Hin, Hend. split; reflexivity.
  - intros e.
    destruct (incoming p); [destruct (ending p)|]; cbn;
      intros H; try discriminate; inversion H; split; reflexivity.
Qed.

Lemma short_read_and_read_errors_witness :
  fst (Execute stub_server ["http://example.com/get"]) = Exited 0
  /\ reads_of (trace (snd (Execute stub_server ["http://example.com/get"])))
     = [(stub_reply, None)]
  /\ stdout_of (trace (snd (Execute stub_server ["http://example.com/get"])))
     = stub_reply ++ String LF EmptyString.
Proof.
  refine (proj1 (short_read_and_read_errors stub_server "http://example.com/get"
                   _ (mkPeer stub_reply PeerClosed) eq_refl eq_refl) _).
  unfold bufsize. simpl. lia.
Defined.

(** C4 fails for the immediately closed connection: the read of zero bytes
    comes with [io.EOF], and the program panics with it. *)
Lemma immediate_close_is_fatal :
  fst (Execute closing_at_once ["http://example.com/get"]) = Crashed EOF
  /\ reads_of (trace (snd (Execute closing_at_once ["http://example.com/get"])))
     = [(EmptyString, Some EOF)]
  /\ stdout_of (trace (snd (Execute closing_at_once ["http://example.com/get"])))
     = EmptyString.
Proof. vm_compute. repeat split. Qed.

Lemma take_take n m s :
  strings.take n (strings.take m s) = strings.take (Nat.min n m) s.
Proof.
  revert m s. induction n as [|n IH]; intros [|m] [|c s]; try reflexivity.
  cbn [strings.take Nat.min]. now rewrite IH.
Qed.

(** C6, as the code has it. Whatever the arguments and the network, no read
    returns more than the 1024 bytes of the buffer. When more than 1024
    bytes have been delivered by the time the read is served, the program
    exits with status 0, the response is the first 1024 bytes, standard
    output is these bytes and a newline, and the rest is left unread in a
    socket that is closed. What the server sends in all does not decide it:
    of a response of which [arrived] bytes are there when the read is
    served, the program gets the first [min 1024 arrived] bytes, without an
    error. *)
Theorem long_response_truncated (w : World) :
  bufsize = 1024
  /\ (forall args d e,
        In (d, e) (reads_of (trace (snd (Execute w args)))) ->
        String.length d <= bufsize)
  /\ (forall arg u p,
        url.Parse arg = inr u ->
        connect w "tcp" (address (resolve u)) = inr p ->
        bufsize < String.length (incoming p) ->
        let st := snd (Execute w [arg]) in
        let response := strings.take bufsize (incoming p) in
        fst (Execute w [arg]) = Exited 0
        /\ reads_of (trace st) = [(response, None)]
        /\ String.length response = bufsize
        /\ stdout_of (trace st) = response ++ String LF EmptyString
        /\ map unread (socks st) = [strings.drop bufsize (incoming p)]
        /\ open_sockets st = 0)
  /\ (forall arg u response arrived,
        url.Parse arg = inr u ->
        connect w "tcp" (address (resolve u)) = inr (sending response arrived) ->
        0 < arrived ->
        url.is_empty response = false ->
        let st := snd (Execute w [arg]) in
        let got := strings.take (Nat.min bufsize arrived) response in
        fst (Execute w [arg]) = Exited 0
        /\ reads_of (trace st) = [(got, None)]
        /\ String.length got = Nat.min (Nat.min bufsize arrived) (String.length response)
        /\ stdout_of (trace st) = got ++ String LF EmptyString).
Proof.
  split; [reflexivity|]. split; [|split].
  - intros [|arg [|arg' args]] d e.
    + rewrite Execute_arity by (simpl; lia). intros [].
    + rewrite reads_of_Execute.
      destruct (url.Parse arg) as [err|u]; [intros []|].
      destruct (connect w "tcp" (address (resolve u))) as [dt|p]; [intros []|].
      unfold the_read, first_read.
      destruct (incoming p) as [|c s]; [destruct (ending p)|];
        intros H; try contradiction; destruct H as [H|[]];
        apply pair_equal_spec in H; destruct H as [<- _];
        rewrite ?length_take; simpl String.length; lia.
    + rewrite Execute_arity by (simpl; lia). intros [].
  - intros arg u p HP HC Hlen. cbv zeta.
    rewrite Execute_steps, HP. cbv zeta. rewrite HC.
    unfold finished, first_read.
    destruct (incoming p) as [|c s] eqn:E; [simpl in Hlen; lia|].
    repeat split. rewrite length_take. lia.
  - intros arg u response arrived HP HC Harr Hne. cbv zeta.
    rewrite Execute_steps, HP. cbv zeta. rewrite HC.
    unfold finished, first_read, sending. cbn [incoming ending].
    destruct arrived as [|k]; [lia|].
    destruct response as [|c r]; [discriminate|].
    cbn [strings.take].
    change (String c (strings.take k r)) with (strings.take (S k) (String c r)).
    rewrite take_take. cbn [fst snd outcome_of].
    repeat split. apply length_take.
Qed.

Lemma long_response_truncated_witness :
  fst (Execute verbose_server ["http://example.com/get"]) = Exited 0
  /\ reads_of (trace (snd (Execute verbose_server ["http://example.com/get"])))
     = [(strings.take bufsize long_reply, None)]
  /\ String.length (strings.take bufsize long_reply) = bufsize
  /\ stdout_of (trace (snd (Execute verbose_server ["http://example.com/get"])))
     = strings.take bufsize long_reply ++ String LF EmptyString
  /\ map unread (socks (snd (Execute verbose_server ["http://example.com/get"])))
     = [strings.drop bufsize long_reply]
  /\ open_sockets (snd (Execute verbose_server ["http://example.com/get"])) = 0.
Proof.
  refine (proj1 (proj2 (proj2 (long_response_truncated verbose_server)))
                "http://example.com/get" _ (mkPeer long_reply PeerClosed)
                eq_refl eq_refl _).
  apply Nat.ltb_lt. vm_compute. reflexivity.
Defined.

(** C6 fails as it is worded: a server that sends more than 1024 bytes, of
    which 10 have arrived when the read is served, gives a response of
    these 10 bytes, without an error. *)
Lemma more_sent_than_arrived_gives_short_response :
  (bufsize <? String.length long_reply) = true
  /\ incoming (sending long_reply 10) = strings.take 10 long_reply
  /\ fst (Execute trickling_server ["http://example.com/get"]) = Exited 0
  /\ reads_of (trace (snd (Execute trickling_server ["http://example.com/get"])))
     = [(strings.take 10 long_reply, None)]
  /\ String.length (strings.take 10 long_reply) = 10
  /\ stdout_of (trace (snd (Execute trickling_server ["http://example.com/get"])))
     = strings.take 10 long_reply ++ String LF EmptyString.
Proof. vm_compute. repeat split. Qed.

(** ** The connection is released *)

(** C5. Whenever the dial succeeded and the program comes to an end, be it
    by returning or by the panic of a failed read, [conn.Close()] has been
    called exactly once (every call is an event, and there is one), the
    socket is closed, no socket is left open, and the close is the last
    thing that happens. *)
Theorem connection_closed_exactly_once
        (w : World) (arg : string) (u : url.URL) (p : Peer) :
  url.Parse arg = inr u ->
  connect w "tcp" (address (resolve u)) = inr p ->
  fst (Execute w [arg]) <> Hung ->
  let st := snd (Execute w [arg]) in
  closes_of (trace st) = 1
  /\ open_sockets st = 0
  /\ map closed (socks st) = [true]
  /\ exists before, trace st = (before ++ [EvClose 0])%list.
Proof.
  intros HP HC. cbv zeta. rewrite Execute_steps, HP. cbv zeta. rewrite HC.
  unfold finished.
  set (pre := (banner (resolve u) ++
               [EvDial "tcp" (address (resolve u)); EvWrite 0 (wire_request (resolve u))])%list).
  destruct (incoming p); [destruct (ending p) as [| |d]|]; cbn [fst snd outcome_of];
    intros HH.
  - exfalso; apply HH; reflexivity.
  - repeat split.
    exists (pre ++ [EvRead 0 bufsize EmptyString (Some EOF)])%list.
    now rewrite <- app_assoc.
  - repeat split.
    exists (pre ++ [EvRead 0 bufsize EmptyString (Some (ErrOp "read" d))])%list.
    now rewrite <- app_assoc.
  - repeat split.
    eexists (pre ++ [EvRead 0 bufsize _ None; EvStdout _])%list.
    now rewrite <- app_assoc.
Qed.

Lemma connection_closed_exactly_once_witness :
  closes_of (trace (snd (Execute resetting ["http://example.com/get"]))) = 1
  /\ open_sockets (snd (Execute resetting ["http://example.com/get"])) = 0
  /\ map closed (socks (snd (Execute resetting ["http://example.com/get"]))) = [true]
  /\ exists before,
       trace (snd (Execute resetting ["http://example.com/get"]))
       = (before ++ [EvClose 0])%list.
Proof.
  refine (connection_closed_exactly_once resetting "http://example.com/get" _
            (mkPeer EmptyString (ReadFails "connection reset by peer"))
            eq_refl eq_refl _).
  vm_compute. discriminate.
Defined.

(** While the read is blocked the function has not come to an end, and the
    deferred close has not run. *)
Example silent_peer_blocks :
  fst (Execute (serving (mkPeer EmptyString NeverEnds)) ["http://example.com/get"]) = Hung
  /\ closes_of (trace (snd (Execute (serving (mkPeer EmptyString NeverEnds))
                                    ["http://example.com/get"]))) = 0.
Proof. vm_compute. split; reflexivity. Qed.

(** ** Standard output *)

(** C8. An invocation whose read returned without an error exits with
    status 0, and its standard output is exactly the bytes read followed by
    one newline; there was one read and no other. *)
Theorem stdout_is_response_and_newline
        (w : World) (args : list string) (data : string) :
  In (data, None) (reads_of (trace (snd (Execute w args)))) ->
  fst (Execute w args) = Exited 0
  /\ exit_status (fst (Execute w args)) = Some 0
  /\ reads_of (trace (snd (Execute w args))) = [(data, None)]
  /\ stdout_of (trace (snd (Execute w args))) = data ++ String LF EmptyString.
Proof.
  destruct args as [|arg [|arg' args]].
  - rewrite Execute_arity by (simpl; lia). intros [].
  - rewrite reads_of_Execute, Execute_steps.
    destruct (url.Parse arg) as [err|u]; [intros []|]. cbv zeta.
    destruct (connect w "tcp" (address (resolve u))) as [dt|p]; [intros []|].
    unfold the_read, finished.
    destruct (incoming p) as [|c s]; [destruct (ending p)|];
      intros H; try contradiction; destruct H as [H|[]]; try discriminate.
    apply pair_equal_spec in H. destruct H as [<- _]. repeat split.
  - rewrite Execute_arity by (simpl; lia). intros [].
Qed.

Lemma stdout_is_response_and_newline_witness :
  fst (Execute stub_server ["http://example.com/get"]) = Exited 0
  /\ exit_status (fst (Execute stub_server ["http://example.com/get"])) = Some 0
  /\ reads_of (trace (snd (Execute stub_server ["http://example.com/get"])))
     = [(stub_reply, None)]
  /\ stdout_of (trace (snd (Execute stub_server ["http://example.com/get"])))
     = stub_reply ++ String LF EmptyString.
Proof.
  refine (stdout_is_response_and_newline stub_server ["http://example.com/get"]
            stub_reply _).
  vm_compute. left. reflexivity.
Defined.

(** The end-to-end scenario of the specification. *)
Example end_to_end_scenario :
  Execute stub_server ["http://example.com/get"] =
  (Exited 0,
   mkState [ EvStderr ("Host: example.com" ++ String LF EmptyString);
             EvStderr ("Port: 80" ++ String LF EmptyString);
             EvStderr ("Path: /get" ++ String LF EmptyString);
             EvDial "tcp" "example.com:80";
             EvWrite 0 ("GET /get HTTP/1.0" ++ CRLF ++ "Host: example.com" ++ CRLF ++ CRLF);
             EvRead 0 1024 ("HTTP/1.0 200 OK" ++ CRLF ++ CRLF ++ "hi") None;
             EvStdout ("HTTP/1.0 200 OK" ++ CRLF ++ CRLF ++ "hi" ++ String LF EmptyString);
             EvClose 0 ]
           [ mkSocket PeerClosed EmptyString
                      ("GET /get HTTP/1.0" ++ CRLF ++ "Host: example.com" ++ CRLF ++ CRLF)
                      true ]
           []).
Proof. vm_compute. reflexivity. Qed.

(** ** Searching a string for one byte *)

Section OneByte.

Variable c : ascii.

Let sep : string := String c EmptyString.

Lemma Index_byte_cons d s :
  strings.Index (String d s) sep =
  if Ascii.eqb d c then Some 0 else option_map S (strings.Index s sep).
Proof.
  unfold sep. cbn [strings.Index strings.HasPrefix].
  destruct (Ascii.eqb d c); reflexivity.
Qed.

Lemma Index_lacks s : lacks c s = true -> strings.Index s sep = None.
Proof.
  induction s as [|d s IH]; intros H; [reflexivity|].
  simpl in H. apply andb_true_iff in H. destruct H as [Hd Hs].
  rewrite Index_byte_cons. apply negb_true_iff in Hd. rewrite Hd.
  now rewrite IH.
Qed.

Lemma Index_app_lacks a b :
  lacks c a = true ->
  strings.Index (a ++ b) sep =
  option_map (Nat.add (String.length a)) (strings.Index b sep).
Proof.
  induction a as [|d a IH]; intros H.
  - simpl. now destruct (strings.Index b sep).
  - simpl in H. apply andb_true_iff in H. destruct H as [Hd Ha].
    apply negb_true_iff in Hd.
    change (String d a ++ b) with (String d (a ++ b)).
    rewrite Index_byte_cons, Hd, IH by assumption.
    now destruct (strings.Index b sep).
Qed.

Lemma Contains_lacks s : lacks c s = true -> strings.Contains s sep = false.
Proof. intros H. unfold strings.Contains. now rewrite Index_lacks. Qed.

Lemma LastIndex_lacks s : lacks c s = true -> strings.LastIndex s sep = None.
Proof.
  induction s as [|d s IH]; intros H; [reflexivity|].
  simpl in H. apply andb_true_iff in H. destruct H as [Hd Hs].
  apply negb_true_iff in Hd.
  cbn [strings.LastIndex]. rewrite IH by assumption.
  unfold sep. cbn [strings.HasPrefix]. now rewrite Hd.
Qed.

(** The last [c] of [a ++ c ++ b] is the one in the middle when [b] has none. *)
Lemma LastIndex_app_lacks a b :
  lacks c b = true ->
  strings.LastIndex (a ++ String c b) sep = Some (String.length a).
Proof.
  intros Hb. induction a as [|d a IH].
  - cbn [append strings.LastIndex String.length].
    rewrite LastIndex_lacks by assumption.
    unfold sep. cbn [strings.HasPrefix]. now rewrite Ascii.eqb_refl.
  - change (String d a ++ String c b) with (String d (a ++ String c b)).
    cbn [strings.LastIndex String.length]. now rewrite IH.
Qed.

Lemma take_app_plus a b i :
  strings.take (String.length a + i) (a ++ b) = a ++ strings.take i b.
Proof. induction a as [|d a IH]; simpl; [reflexivity | now rewrite IH]. Qed.

Lemma drop_app_plus a b i :
  strings.drop (String.length a + i) (a ++ b) = strings.drop i b.
Proof. induction a as [|d a IH]; simpl; [reflexivity | exact IH]. Qed.

(** Cutting [a ++ b] at the first [c] when [a] has none. *)
Lemma Cut_app_lacks a b :
  lacks c a = true ->
  strings.Cut (a ++ b) sep =
  let '(x, y, found) := strings.Cut b sep in (a ++ x, y, found).
Proof.
  intros H. unfold strings.Cut. rewrite Index_app_lacks by assumption.
  destruct (strings.Index b sep) as [i|]; cbn [option_map].
  - rewrite take_app_plus. rewrite <- Nat.add_assoc, drop_app_plus. reflexivity.
  - reflexivity.
Qed.

Lemma Cut_lacks s : lacks c s = true -> strings.Cut s sep = (s, EmptyString, false).
Proof. intros H. unfold strings.Cut. now rewrite Index_lacks. Qed.

Lemma Cut_at a b :
  lacks c a = true -> strings.Cut (a ++ String c b) sep = (a, b, true).
Proof.
  intros H. rewrite Cut_app_lacks by assumption.
  unfold strings.Cut. rewrite Index_byte_cons, Ascii.eqb_refl.
  cbn. now rewrite app_empty_r.
Qed.

Lemma drop_S_app a b :
  strings.drop (S (String.length a)) (a ++ String c b) = b.
Proof. induction a as [|d a IH]; simpl; [now destruct b | exact IH]. Qed.

Lemma lacks_app a b : lacks c (a ++ b) = lacks c a && lacks c b.
Proof.
  induction a as [|d a IH]; simpl; [reflexivity|].
  now rewrite IH, andb_assoc.
Qed.

Lemma lacks_drop n s : lacks c s = true -> lacks c (strings.drop n s) = true.
Proof.
  revert s; induction n as [|n IH]; intros [|d s] H; simpl; auto.
  simpl in H. apply andb_true_iff in H. now apply IH.
Qed.

Lemma CountByte_app a b :
  strings.CountByte (a ++ b) c = strings.CountByte a c + strings.CountByte b c.
Proof. induction a as [|d a IH]; simpl; [reflexivity | rewrite IH; lia]. Qed.

Lemma CountByte_lacks s : lacks c s = true -> strings.CountByte s c = 0.
Proof.
  induction s as [|d s IH]; intros H; [reflexivity|].
  simpl in H. apply andb_true_iff in H. destruct H as [Hd Hs].
  apply negb_true_iff in Hd. simpl. now rewrite Hd, IH.
Qed.

Lemma CountByte_0_lacks s : strings.CountByte s c = 0 -> lacks c s = true.
Proof.
  induction s as [|d s IH]; intros H; [reflexivity|].
  simpl in H |- *. destruct (Ascii.eqb d c); [discriminate|].
  simpl. now apply IH.
Qed.

End OneByte.

(** ** The port *)

Lemma all_digits_lacks_colon p : url.all_digits p = true -> lacks ":" p = true.
Proof.
  induction p as [|d p IH]; intros H; [reflexivity|].
  simpl in H. apply andb_true_iff in H. destruct H as [Hd Hp].
  simpl. rewrite IH by assumption. rewrite andb_true_r.
  destruct (Ascii.eqb_spec d ":") as [->|]; [discriminate Hd | reflexivity].
Qed.

(** [Port()] of a host of the shape [h:digits] is the digits. *)
Lemma splitHostPort_port h p :
  url.all_digits p = true ->
  snd (url.splitHostPort (h ++ ":" ++ p)) = p.
Proof.
  intros Hp. unfold url.splitHostPort, strings.LastIndexByte.
  change (h ++ ":" ++ p) with (h ++ String ":" p).
  rewrite LastIndex_app_lacks by now apply all_digits_lacks_colon.
  rewrite drop_app_exact. cbn [url.validOptionalPort].
  rewrite Ascii.eqb_refl, Hp. cbn [snd].
  replace (S (String.length h)) with (String.length h + 1) by lia.
  rewrite drop_app_plus. reflexivity.
Qed.

(** [Port()] of a host without a colon is empty. *)
Lemma splitHostPort_no_port h :
  lacks ":" h = true -> snd (url.splitHostPort h) = EmptyString.
Proof.
  intros H. unfold url.splitHostPort, strings.LastIndexByte.
  now rewrite LastIndex_lacks.
Qed.

(** The resolved port, from the host [url.Parse] stored. *)
Lemma resolved_port (u : url.URL) :
  port (resolve u)
  = (if String.eqb (url.Port u) EmptyString then "80" else url.Port u)
  /\ (forall h p, url.Host u = h ++ ":" ++ p ->
                  p <> EmptyString -> url.all_digits p = true ->
                  port (resolve u) = p)
  /\ (lacks ":" (url.Host u) = true -> port (resolve u) = "80")
  /\ (forall h, url.Host u = h ++ ":" -> port (resolve u) = "80").
Proof.
  unfold resolve, url.Port. cbn [port].
  split; [reflexivity|]. split; [|split].
  - intros h p HH Hne Hd. rewrite HH, splitHostPort_port by assumption.
    destruct p; [contradiction | reflexivity].
  - intros HH. now rewrite splitHostPort_no_port.
  - intros h HH. rewrite HH.
    pose proof (splitHostPort_port h EmptyString eq_refl) as E.
    cbn [append] in E. rewrite E. reflexivity.
Qed.

(** The ports of the specification's examples. *)
Example port_examples :
  target_of "http://example.com:8080/x" = Some (mkTarget "example.com" "8080" "/x")
  /\ target_of "http://example.com/get" = Some (mkTarget "example.com" "80" "/get")
  /\ target_of "https://example.com/get" = Some (mkTarget "example.com" "80" "/get")
  /\ target_of "ftp://example.com" = Some (mkTarget "example.com" "80" EmptyString).
Proof. vm_compute. repeat split. Qed.

(** ** Bytes of a scheme *)

Lemma scheme_byte_facts c :
  scheme_byte c = true ->
  Ascii.eqb c "#" = false
  /\ Ascii.eqb c "*" = false
  /\ ((nat_of_ascii c <? 32) || (nat_of_ascii c =? 127)) = false.
Proof. by_cases_on_byte c. Qed.

Lemma letter_is_scheme_byte c :
  (between "a" c "z" || between "A" c "Z") = true -> scheme_byte c = true.
Proof. unfold scheme_byte. intros ->. reflexivity. Qed.

Lemma is_scheme_bytes s : is_scheme s = true -> scheme_bytes s = true.
Proof.
  destruct s as [|c s]; [discriminate|]. simpl.
  intros H. apply andb_true_iff in H. destruct H as [Hc Hs].
  now rewrite (letter_is_scheme_byte c Hc), Hs.
Qed.

Lemma scheme_bytes_lack_hash s : scheme_bytes s = true -> lacks "#" s = true.
Proof.
  induction s as [|c s IH]; intros H; [reflexivity|].
  simpl in H. apply andb_true_iff in H. destruct H as [Hc Hs].
  simpl. rewrite IH by assumption.
  destruct (scheme_byte_facts c Hc) as [-> _]. reflexivity.
Qed.

Lemma CTL_app a b :
  url.stringContainsCTLByte (a ++ b)
  = url.stringContainsCTLByte a || url.stringContainsCTLByte b.
Proof.
  unfold url.stringContainsCTLByte.
  induction a as [|c a IH]; [reflexivity|].
  cbn [append list_ascii_of_string existsb]. now rewrite IH, orb_assoc.
Qed.

Lemma scheme_bytes_no_CTL s :
  scheme_bytes s = true -> url.stringContainsCTLByte s = false.
Proof.
  unfold url.stringContainsCTLByte.
  induction s as [|c s IH]; intros H; [reflexivity|].
  simpl in H. apply andb_true_iff in H. destruct H as [Hc Hs].
  cbn [list_ascii_of_string existsb]. rewrite IH by assumption.
  destruct (scheme_byte_facts c Hc) as (_ & _ & ->). reflexivity.
Qed.

Lemma ToLower_not_empty s : is_scheme s = true -> url.is_empty (strings.ToLower s) = false.
Proof. destruct s; [discriminate | reflexivity]. Qed.

(** ** [getScheme] on a URL that has a scheme *)

Lemma getScheme_loop_scheme pre s rest :
  scheme_bytes s = true ->
  (pre = EmptyString -> is_scheme s = true) ->
  url.getScheme_loop (pre ++ s ++ ":" ++ rest) (String.length pre) (s ++ ":" ++ rest)
  = inr (pre ++ s, rest).
Proof.
  revert pre. induction s as [|c s IH]; intros pre Hs Hpre.
  - assert (Hlen : (String.length pre =? 0) = false).
    { destruct pre; [specialize (Hpre eq_refl); discriminate | reflexivity]. }
    change (EmptyString ++ ":" ++ rest) with (String ":" rest).
    rewrite app_empty_r. cbn [url.getScheme_loop].
    change (between "a" ":" "z" || between "A" ":" "Z") with false.
    change (between "0" ":" "9" || oneof ":" "+-.") with false.
    rewrite Ascii.eqb_refl, Hlen. cbv iota.
    rewrite take_app_exact, drop_S_app. reflexivity.
  - simpl in Hs. apply andb_true_iff in Hs. destruct Hs as [Hc Hs].
    assert (Hstep :
      url.getScheme_loop (pre ++ String c s ++ ":" ++ rest) (String.length pre)
                         (String c s ++ ":" ++ rest)
      = url.getScheme_loop (pre ++ String c s ++ ":" ++ rest) (S (String.length pre))
                           (s ++ ":" ++ rest)).
    { cbn [append url.getScheme_loop].
      destruct (between "a" c "z" || between "A" c "Z") eqn:Hl; [reflexivity|].
      unfold scheme_byte in Hc. rewrite Hl in Hc. cbn [orb] in Hc.
      rewrite Hc.
      destruct pre as [|d pre]; [|reflexivity].
      specialize (Hpre eq_refl). simpl in Hpre. rewrite Hl in Hpre. discriminate. }
    rewrite Hstep.
    replace (pre ++ String c s ++ ":" ++ rest)
      with ((pre ++ String c EmptyString) ++ s ++ ":" ++ rest)
      by (rewrite app_assoc_s; reflexivity).
    replace (S (String.length pre)) with (String.length (pre ++ String c EmptyString))
      by (rewrite length_app_s; simpl; lia).
    rewrite IH; [ | assumption | ].
    + rewrite app_assoc_s. reflexivity.
    + intros E. destruct pre; discriminate E.
Qed.

Lemma getScheme_scheme s rest :
  is_scheme s = true -> url.getScheme (s ++ ":" ++ rest) = inr (s, rest).
Proof.
  intros H. unfold url.getScheme.
  apply (getScheme_loop_scheme EmptyString s rest); [now apply is_scheme_bytes | auto].
Qed.

(** ** The scheme is kept and never looked at *)

Lemma parse_scheme s rest :
  is_scheme s = true ->
  url.parse (s ++ ":" ++ rest) false =
  if url.stringContainsCTLByte rest then inl url.InvalidControlCharacter
  else url.parse_after_scheme false (strings.ToLower s) rest.
Proof.
  intros Hs. unfold url.parse.
  rewrite CTL_app, (scheme_bytes_no_CTL s (is_scheme_bytes s Hs)).
  change (url.stringContainsCTLByte (":" ++ rest))
    with (url.stringContainsCTLByte rest).
  cbn [orb]. destruct (url.stringContainsCTLByte rest); [reflexivity|].
  rewrite andb_false_r, getScheme_scheme by assumption.
  destruct s as [|c s]; [discriminate|].
  simpl in Hs. apply andb_true_iff in Hs. destruct Hs as [Hc _].
  destruct (scheme_byte_facts c (letter_is_scheme_byte c Hc)) as (_ & Hstar & _).
  cbn [append String.eqb]. rewrite Hstar. reflexivity.
Qed.

Lemma parse_after_scheme_scheme v s1 s2 rest :
  url.is_empty s1 = false -> url.is_empty s2 = false ->
  url.parse_after_scheme v s2 rest
  = map_inr (with_scheme s2) (url.parse_after_scheme v s1 rest).
Proof.
  intros H1 H2.
  unfold url.parse_after_scheme, url.parse_hier, url.parse_authority_part.
  destruct (url.split_query rest) as [[r fq] rq].
  rewrite H1, H2. cbn [negb orb andb].
  repeat match goal with
         | |- context [if ?b then _ else _] => destruct b
         | |- context [match ?x with _ => _ end] => destruct x
         end; reflexivity.
Qed.

Lemma setFragment_with_scheme s u f :
  url.setFragment (with_scheme s u) f = map_inr (with_scheme s) (url.setFragment u f).
Proof. unfold url.setFragment. destruct (url.unescape f url.encodeFragment); reflexivity. Qed.

Lemma resolve_with_scheme s u : resolve (with_scheme s u) = resolve u.
Proof. reflexivity. Qed.

(** [Parse] on a URL that has a scheme. *)
Lemma Parse_scheme s rest :
  is_scheme s = true ->
  url.Parse (s ++ ":" ++ rest) =
  let '(x, frag, _) := strings.Cut rest "#" in
  match (if url.stringContainsCTLByte x then inl url.InvalidControlCharacter
         else url.parse_after_scheme false (strings.ToLower s) x) with
  | inl e => inl (url.mkError "parse" (s ++ ":" ++ x) e)
  | inr u =>
      if url.is_empty frag then inr u
      else match url.setFragment u frag with
           | inl e => inl (url.mkError "parse" (s ++ ":" ++ rest) e)
           | inr u' => inr u'
           end
  end.
Proof.
  intros Hs. unfold url.Parse.
  replace (s ++ ":" ++ rest) with ((s ++ ":") ++ rest)
    by (rewrite app_assoc_s; reflexivity).
  rewrite Cut_app_lacks
    by (rewrite lacks_app, scheme_bytes_lack_hash by (now apply is_scheme_bytes);
        reflexivity).
  destruct (strings.Cut rest "#") as [[x frag] found].
  rewrite !app_assoc_s. rewrite parse_scheme by assumption. reflexivity.
Qed.

Lemma target_of_scheme s1 s2 rest :
  is_scheme s1 = true -> is_scheme s2 = true ->
  target_of (s1 ++ ":" ++ rest) = target_of (s2 ++ ":" ++ rest).
Proof.
  intros H1 H2. unfold target_of. rewrite !Parse_scheme by assumption.
  destruct (strings.Cut rest "#") as [[x frag] found].
  destruct (url.stringContainsCTLByte x); [reflexivity|].
  rewrite (parse_after_scheme_scheme false (strings.ToLower s1) (strings.ToLower s2))
    by now apply ToLower_not_empty.
  destruct (url.parse_after_scheme false (strings.ToLower s1) x) as [e|u];
    [reflexivity|]. cbn [map_inr].
  destruct (url.is_empty frag); [reflexivity|].
  rewrite setFragment_with_scheme.
  destruct (url.setFragment u frag); reflexivity.
Qed.

(** The final state of an execution is a function of the target. *)
Lemma Execute_final_state w arg :
  snd (Execute w [arg]) = final_state w (target_of arg).
Proof.
  rewrite Execute_steps. unfold final_state, target_of.
  destruct (url.Parse arg) as [e|u]; [reflexivity|]. cbv zeta.
  destruct (connect w "tcp" (address (resolve u))); reflexivity.
Qed.

(** So is the exit status. *)
Lemma Execute_exit_status w arg :
  exit_status (fst (Execute w [arg])) =
  match target_of arg with
  | None => Some 2
  | Some t =>
      match connect w "tcp" (address t) with
      | inl _ => Some 2
      | inr p => exit_status (outcome_of (fst (finished (banner t) t p)))
      end
  end.
Proof.
  rewrite Execute_steps. unfold target_of.
  destruct (url.Parse arg) as [e|u]; [reflexivity|]. cbv zeta.
  destruct (connect w "tcp" (address (resolve u))); reflexivity.
Qed.

(** C9. Two URLs that differ in their scheme only resolve to the same
    RequestTarget (or both fail to parse); the two executions then dial the
    same address, write the same bytes, and end in the same state with the
    same exit status. *)
Theorem scheme_is_not_consulted (w : World) (scheme1 scheme2 rest : string) :
  is_scheme scheme1 = true ->
  is_scheme scheme2 = true ->
  let run1 := Execute w [scheme1 ++ ":" ++ rest] in
  let run2 := Execute w [scheme2 ++ ":" ++ rest] in
  target_of (scheme1 ++ ":" ++ rest) = target_of (scheme2 ++ ":" ++ rest)
  /\ dials_of (trace (snd run1)) = dials_of (trace (snd run2))
  /\ writes_of (trace (snd run1)) = writes_of (trace (snd run2))
  /\ snd run1 = snd run2
  /\ exit_status (fst run1) = exit_status (fst run2).
Proof.
  intros H1 H2. cbv zeta.
  pose proof (target_of_scheme scheme1 scheme2 rest H1 H2) as HT.
  rewrite !Execute_final_state, !Execute_exit_status, HT.
  repeat split.
Qed.

Lemma scheme_is_not_consulted_witness :
  target_of ("http" ++ ":" ++ "//example.com/x")
  = target_of ("https" ++ ":" ++ "//example.com/x")
  /\ dials_of (trace (snd (Execute stub_server ["http" ++ ":" ++ "//example.com/x"])))
     = dials_of (trace (snd (Execute stub_server ["https" ++ ":" ++ "//example.com/x"])))
  /\ writes_of (trace (snd (Execute stub_server ["http" ++ ":" ++ "//example.com/x"])))
     = writes_of (trace (snd (Execute stub_server ["https" ++ ":" ++ "//example.com/x"])))
  /\ snd (Execute stub_server ["http" ++ ":" ++ "//example.com/x"])
     = snd (Execute stub_server ["https" ++ ":" ++ "//example.com/x"])
  /\ exit_status (fst (Execute stub_server ["http" ++ ":" ++ "//example.com/x"]))
     = exit_status (fst (Execute stub_server ["https" ++ ":" ++ "//example.com/x"])).
Proof.
  exact (scheme_is_not_consulted stub_server "http" "https" "//example.com/x"
           eq_refl eq_refl).
Defined.

(** [https] is dialed on port 80 like [http]. *)
Example https_is_dialed_on_port_80 :
  dials_of (trace (snd (Execute stub_server ["https://example.com/x"])))
  = [("tcp", "example.com:80")]
  /\ dials_of (trace (snd (Execute stub_server ["http://example.com/x"])))
     = [("tcp", "example.com:80")].
Proof. vm_compute. split; reflexivity. Qed.

(** ** The query is cut off and never looked at *)

(** A query after the text does not change what [getScheme] finds. *)
Lemma getScheme_loop_query pre r q :
  url.getScheme_loop ((pre ++ r) ++ String "?" q) (String.length pre) (r ++ String "?" q)
  = map_inr (fun sx => (fst sx, snd sx ++ String "?" q))
            (url.getScheme_loop (pre ++ r) (String.length pre) r).
Proof.
  revert pre. induction r as [|c r IH]; intros pre.
  - cbn [append url.getScheme_loop map_inr fst snd].
    change (between "a" "?" "z" || between "A" "?" "Z") with false.
    change (between "0" "?" "9" || oneof "?" "+-.") with false.
    change (Ascii.eqb "?" ":") with false. reflexivity.
  - assert (Hnext : forall x,
      (pre ++ String c r) ++ x = ((pre ++ String c EmptyString) ++ r) ++ x).
    { intros x. f_equal. rewrite app_assoc_s. reflexivity. }
    assert (Hnext' : pre ++ String c r = (pre ++ String c EmptyString) ++ r).
    { rewrite app_assoc_s. reflexivity. }
    assert (Hlen : S (String.length pre) = String.length (pre ++ String c EmptyString)).
    { rewrite length_app_s. simpl. lia. }
    assert (Hrec :
      url.getScheme_loop ((pre ++ String c r) ++ String "?" q) (S (String.length pre))
                         (r ++ String "?" q)
      = map_inr (fun sx => (fst sx, snd sx ++ String "?" q))
                (url.getScheme_loop (pre ++ String c r) (S (String.length pre)) r)).
    { rewrite Hnext, Hnext', Hlen. apply IH. }
    cbn [append url.getScheme_loop].
    change (String c (r ++ String "?" q)) with (String c r ++ String "?" q).
    destruct (between "a" c "z" || between "A" c "Z"); [exact Hrec|].
    destruct (between "0" c "9" || oneof c "+-.").
    { destruct (String.length pre =? 0); [reflexivity | exact Hrec]. }
    destruct (Ascii.eqb c ":"); [|reflexivity].
    destruct (String.length pre =? 0); [reflexivity|].
    cbn [map_inr fst snd].
    rewrite app_assoc_s.
    rewrite <- (Nat.add_0_r (String.length pre)) at 1 3.
    rewrite !take_app_plus.
    change (String c r ++ String "?" q) with (String c (r ++ String "?" q)).
    rewrite !drop_S_app. reflexivity.
Qed.

Lemma getScheme_query base q :
  url.getScheme (base ++ String "?" q)
  = map_inr (fun sx => (fst sx, snd sx ++ String "?" q)) (url.getScheme base).
Proof. exact (getScheme_loop_query EmptyString base q). Qed.

(** What [getScheme] leaves is the text or a suffix of it. *)
Lemma getScheme_loop_lacks c raw i r s x :
  url.getScheme_loop raw i r = inr (s, x) -> lacks c raw = true -> lacks c x = true.
Proof.
  assert (Hraw : forall y, @inr url.parse_error _ (EmptyString, raw) = inr (s, y) ->
                           lacks c raw = true -> lacks c y = true).
  { intros y H Hl. injection H as _ Hy. now rewrite <- Hy. }
  revert i. induction r as [|d r IH]; intros i; cbn [url.getScheme_loop].
  - apply Hraw.
  - destruct (between "a" d "z" || between "A" d "Z"); [apply IH|].
    destruct (between "0" d "9" || oneof d "+-.").
    { destruct (i =? 0); [apply Hraw | apply IH]. }
    destruct (Ascii.eqb d ":"); [|apply Hraw].
    destruct (i =? 0); [discriminate|].
    intros H Hl. injection H as _ Hx. rewrite <- Hx.
    exact (lacks_drop c (S i) raw Hl).
Qed.

(** The text before the query is what [split_query] keeps. *)
Lemma split_query_lacks r :
  lacks "?" r = true -> url.split_query r = (r, false, EmptyString).
Proof.
  intros H. unfold url.split_query.
  rewrite CountByte_lacks by assumption. cbn [Nat.eqb]. rewrite andb_false_r.
  now rewrite Cut_lacks.
Qed.

Lemma last_byte_lacks c d q :
  lacks c (String d q) = true ->
  String.eqb (strings.drop (String.length q) (String d q)) (String c EmptyString) = false.
Proof.
  revert d. induction q as [|e q IH]; intros d H.
  - simpl in H |- *. rewrite andb_true_r in H. apply negb_true_iff in H.
    now rewrite H.
  - cbn [String.length strings.drop]. apply IH.
    simpl in H. apply andb_true_iff in H. apply H.
Qed.

Lemma split_query_app r q :
  lacks "?" r = true ->
  exists fq rq, url.split_query (r ++ String "?" q) = (r, fq, rq).
Proof.
  intros Hr. unfold url.split_query.
  destruct (strings.HasSuffix (r ++ String "?" q) "?"
            && (strings.CountByte (r ++ String "?" q) "?" =? 1)) eqn:E.
  - apply andb_true_iff in E. destruct E as [Hsuf Hcount].
    apply Nat.eqb_eq in Hcount.
    rewrite CountByte_app, CountByte_lacks in Hcount by assumption.
    cbn [strings.CountByte Ascii.eqb Bool.eqb] in Hcount.
    assert (Hq : lacks "?" q = true) by (apply CountByte_0_lacks; simpl in Hcount; lia).
    destruct q as [|d q].
    + exists true, EmptyString. rewrite length_app_s. cbn [String.length].
      replace (String.length r + 1 - 1) with (String.length r + 0) by lia.
      rewrite take_app_plus. cbn [strings.take]. now rewrite app_empty_r.
    + exfalso. unfold strings.HasSuffix in Hsuf.
      apply andb_true_iff in Hsuf. destruct Hsuf as [_ Hsuf].
      rewrite length_app_s in Hsuf. cbn [String.length] in Hsuf.
      replace (String.length r + S (S (String.length q)) - 1)
        with (String.length r + S (String.length q)) in Hsuf by lia.
      rewrite drop_app_plus in Hsuf. cbn [strings.drop] in Hsuf.
      rewrite (last_byte_lacks "?" d q Hq) in Hsuf. discriminate.
  - exists false, q. now rewrite Cut_at.
Qed.

Lemma parse_after_scheme_query v s rest rest' r fq rq fq' rq' :
  url.split_query rest = (r, fq, rq) ->
  url.split_query rest' = (r, fq', rq') ->
  url.parse_after_scheme v s rest'
  = map_inr (with_query fq' rq') (url.parse_after_scheme v s rest).
Proof.
  intros H H'.
  unfold url.parse_after_scheme, url.parse_hier. rewrite H, H'.
  repeat match goal with
         | |- context [if ?b then _ else _] => destruct b
         | |- context [match ?x with _ => _ end] => destruct x
         end; reflexivity.
Qed.

Lemma parse_query base q :
  lacks "?" base = true ->
  url.stringContainsCTLByte q = false ->
  exists fq rq,
    url.parse (base ++ String "?" q) false
    = map_inr (with_query fq rq) (url.parse base false).
Proof.
  intros Hb Hq. unfold url.parse.
  rewrite CTL_app.
  change (url.stringContainsCTLByte (String "?" q)) with (url.stringContainsCTLByte q).
  rewrite Hq, orb_false_r.
  destruct (url.stringContainsCTLByte base); [exists false, EmptyString; reflexivity|].
  rewrite !andb_false_r.
  assert (Hnot : String.eqb (base ++ String "?" q) "*" = false).
  { destruct base as [|c [|d base]]; [reflexivity| |];
      cbn [append String.eqb]; destruct (Ascii.eqb c "*"); reflexivity. }
  rewrite Hnot, getScheme_query.
  destruct (String.eqb_spec base "*") as [->|_].
  - destruct (split_query_app "*" q eq_refl) as (fq & rq & E).
    exists fq, rq. cbn [url.getScheme url.getScheme_loop map_inr fst snd].
    change (between "a" "*" "z" || between "A" "*" "Z") with false.
    change (between "0" "*" "9" || oneof "*" "+-.") with false.
    change (Ascii.eqb "*" ":") with false. cbv iota.
    change (strings.ToLower EmptyString) with EmptyString.
    unfold url.parse_after_scheme. cbn [append] in E.
    cbn [map_inr fst snd append]. rewrite E. reflexivity.
  - destruct (url.getScheme base) as [e|[s x]] eqn:G;
      [exists false, EmptyString; reflexivity|].
    cbn [map_inr fst snd].
    assert (Hx : lacks "?" x = true)
      by (exact (getScheme_loop_lacks "?" base 0 base s x G Hb)).
    destruct (split_query_app x q Hx) as (fq & rq & E).
    exists fq, rq.
    exact (parse_after_scheme_query false (strings.ToLower s) x (x ++ String "?" q)
             x false EmptyString fq rq (split_query_lacks x Hx) E).
Qed.

Lemma setFragment_with_query fq rq u f :
  url.setFragment (with_query fq rq u) f
  = map_inr (with_query fq rq) (url.setFragment u f).
Proof. unfold url.setFragment. destruct (url.unescape f url.encodeFragment); reflexivity. Qed.

Lemma resolve_with_query fq rq u : resolve (with_query fq rq u) = resolve u.
Proof. reflexivity. Qed.

(** [Parse] on a text without '#' followed by nothing or by a fragment. *)
Lemma Parse_tail a tail :
  lacks "#" a = true -> fragment_or_nothing tail = true ->
  url.Parse (a ++ tail) =
  match url.parse a false with
  | inl e => inl (url.mkError "parse" a e)
  | inr u =>
      if url.is_empty (strings.drop 1 tail) then inr u
      else match url.setFragment u (strings.drop 1 tail) with
           | inl e => inl (url.mkError "parse" (a ++ tail) e)
           | inr u' => inr u'
           end
  end.
Proof.
  intros Ha Ht. unfold url.Parse.
  destruct tail as [|c tail].
  - rewrite app_empty_r, Cut_lacks by assumption. reflexivity.
  - simpl in Ht. apply Ascii.eqb_eq in Ht. subst c.
    rewrite Cut_at by assumption. reflexivity.
Qed.

Lemma target_of_query base q tail :
  lacks "?" base = true -> lacks "#" base = true -> lacks "#" q = true ->
  url.stringContainsCTLByte q = false ->
  fragment_or_nothing tail = true ->
  target_of (base ++ "?" ++ q ++ tail) = target_of (base ++ tail).
Proof.
  intros Hb Hh Hq Hc Ht. unfold target_of.
  replace (base ++ "?" ++ q ++ tail) with ((base ++ String "?" q) ++ tail)
    by (rewrite app_assoc_s; reflexivity).
  rewrite !Parse_tail; try assumption;
    [ | rewrite lacks_app, Hh; simpl; exact Hq ].
  destruct (parse_query base q Hb Hc) as (fq & rq & E). rewrite E.
  destruct (url.parse base false) as [e|u]; [reflexivity|]. cbn [map_inr].
  destruct (url.is_empty (strings.drop 1 tail)); [reflexivity|].
  rewrite setFragment_with_query.
  destruct (url.setFragment u (strings.drop 1 tail)); reflexivity.
Qed.

(** C10. A query is cut off the URL and takes no part in the request. For a
    text [base] without '?' and '#', a query [q] without '#' and control
    bytes, and [tail] that is nothing or a fragment: [base?q tail] and
    [base tail] resolve to the same RequestTarget, so the bytes written on
    the wire are the same, and so is the whole final state. *)
Theorem query_is_dropped (w : World) (base q tail : string) :
  lacks "?" base = true ->
  lacks "#" base = true ->
  lacks "#" q = true ->
  url.stringContainsCTLByte q = false ->
  fragment_or_nothing tail = true ->
  let with_q := Execute w [base ++ "?" ++ q ++ tail] in
  let without := Execute w [base ++ tail] in
  target_of (base ++ "?" ++ q ++ tail) = target_of (base ++ tail)
  /\ writes_of (trace (snd with_q)) = writes_of (trace (snd without))
  /\ snd with_q = snd without
  /\ exit_status (fst with_q) = exit_status (fst without).
Proof.
  intros Hb Hh Hq Hc Ht. cbv zeta.
  pose proof (target_of_query base q tail Hb Hh Hq Hc Ht) as HT.
  rewrite !Execute_final_state, !Execute_exit_status, HT.
  repeat split.
Qed.

Lemma query_is_dropped_witness :
  target_of ("http://example.com/get" ++ "?" ++ "x=1" ++ EmptyString)
  = target_of ("http://example.com/get" ++ EmptyString)
  /\ writes_of (trace (snd (Execute stub_server
                    ["http://example.com/get" ++ "?" ++ "x=1" ++ EmptyString])))
     = writes_of (trace (snd (Execute stub_server
                    ["http://example.com/get" ++ EmptyString])))
  /\ snd (Execute stub_server ["http://example.com/get" ++ "?" ++ "x=1" ++ EmptyString])
     = snd (Execute stub_server ["http://example.com/get" ++ EmptyString])
  /\ exit_status (fst (Execute stub_server
                    ["http://example.com/get" ++ "?" ++ "x=1" ++ EmptyString]))
     = exit_status (fst (Execute stub_server ["http://example.com/get" ++ EmptyString])).
Proof.
  exact (query_is_dropped stub_server "http://example.com/get" "x=1" EmptyString
           eq_refl eq_refl eq_refl eq_refl eq_refl).
Defined.

(** The request for the specification's example of a query. *)
Example request_with_query :
  writes_of (trace (snd (Execute stub_server ["http://example.com/get?x=1"])))
  = ["GET /get HTTP/1.0" ++ CRLF ++ "Host: example.com" ++ CRLF ++ CRLF]
  /\ option_map url.RawQuery
       (match url.Parse "http://example.com/get?x=1" with
        | inr u => Some u
        | inl _ => None
        end) = Some "x=1".
Proof. vm_compute. split; reflexivity. Qed.

(** ** Resolving a plain URL, from its text to the target *)

Lemma all_bytes_app f a b : all_bytes f (a ++ b) = all_bytes f a && all_bytes f b.
Proof.
  induction a as [|c a IH]; simpl; [reflexivity | now rewrite IH, andb_assoc].
Qed.

Lemma all_bytes_impl (f g : ascii -> bool) s :
  (forall c, f c = true -> g c = true) -> all_bytes f s = true -> all_bytes g s = true.
Proof.
  intros Hfg. induction s as [|c s IH]; [reflexivity|]. simpl.
  intros H. apply andb_true_iff in H. destruct H as [Hc Hs].
  now rewrite (Hfg c Hc), IH.
Qed.

Lemma all_bytes_lacks f d s :
  (forall c, f c = true -> Ascii.eqb c d = false) ->
  all_bytes f s = true -> lacks d s = true.
Proof.
  intros Hf. induction s as [|c s IH]; [reflexivity|]. simpl.
  intros H. apply andb_true_iff in H. destruct H as [Hc Hs].
  now rewrite (Hf c Hc), IH.
Qed.

Lemma all_bytes_no_CTL f s :
  (forall c, f c = true -> ((nat_of_ascii c <? 32) || (nat_of_ascii c =? 127)) = false) ->
  all_bytes f s = true -> url.stringContainsCTLByte s = false.
Proof.
  intros Hf. unfold url.stringContainsCTLByte.
  induction s as [|c s IH]; [reflexivity|]. simpl.
  intros H. apply andb_true_iff in H. destruct H as [Hc Hs].
  now rewrite (Hf c Hc), IH.
Qed.

Lemma host_byte_facts c :
  host_byte c = true ->
  host_plain c = true
  /\ Ascii.eqb c "#" = false /\ Ascii.eqb c "?" = false /\ Ascii.eqb c "/" = false
  /\ Ascii.eqb c "@" = false /\ Ascii.eqb c ":" = false /\ Ascii.eqb c "[" = false
  /\ ((nat_of_ascii c <? 32) || (nat_of_ascii c =? 127)) = false.
Proof. by_cases_on_byte c. Qed.

Lemma digit_is_host_byte c : between "0" c "9" = true -> host_byte c = true.
Proof. unfold host_byte. intros ->. now rewrite orb_true_r. Qed.

Lemma all_digits_host_bytes p : url.all_digits p = true -> all_bytes host_byte p = true.
Proof.
  induction p as [|c p IH]; [reflexivity|]. simpl.
  intros H. apply andb_true_iff in H. destruct H as [Hc Hp].
  now rewrite (digit_is_host_byte c Hc), IH.
Qed.

Lemma lacks_HasPrefix c s : lacks c s = true -> strings.HasPrefix s (String c EmptyString) = false.
Proof.
  destruct s as [|d s]; [reflexivity|]. simpl.
  intros H. apply andb_true_iff in H. destruct H as [Hd _].
  apply negb_true_iff in Hd. now rewrite Hd.
Qed.

(** [unescape] in host mode keeps a string of bytes it passes over. *)
Lemma unescape_scan_host s n hasPlus :
  all_bytes host_plain s = true ->
  url.unescape_scan url.encodeHost s n hasPlus = inr (n, hasPlus).
Proof.
  induction s as [|c s IH]; intros H; [reflexivity|].
  simpl in H. apply andb_true_iff in H. destruct H as [Hc Hs].
  unfold host_plain in Hc.
  apply andb_true_iff in Hc. destruct Hc as [Hc Hesc].
  apply andb_true_iff in Hc. destruct Hc as [Hpct Hplus].
  apply negb_true_iff in Hpct, Hplus, Hesc.
  cbn [url.unescape_scan]. rewrite Hpct, Hplus.
  cbn [url.encoding_eqb orb andb]. rewrite Hesc. now apply IH.
Qed.

Lemma unescape_host s :
  all_bytes host_plain s = true -> url.unescape s url.encodeHost = inr s.
Proof. intros H. unfold url.unescape. now rewrite unescape_scan_host. Qed.

(** [unescape] in path mode keeps a string without '%'. *)
Lemma unescape_scan_path s n :
  lacks "%" s = true ->
  url.unescape_scan url.encodePath s n false = inr (n, false).
Proof.
  induction s as [|c s IH]; intros H; [reflexivity|].
  simpl in H. apply andb_true_iff in H. destruct H as [Hc Hs].
  apply negb_true_iff in Hc.
  cbn [url.unescape_scan]. rewrite Hc. cbn [url.encoding_eqb orb andb].
  destruct (Ascii.eqb c "+"); now apply IH.
Qed.

Lemma unescape_path s :
  lacks "%" s = true -> url.unescape s url.encodePath = inr s.
Proof. intros H. unfold url.unescape. now rewrite unescape_scan_path. Qed.

(** What a plain host name is free of. *)
Lemma host_bytes_facts h :
  all_bytes host_byte h = true ->
  all_bytes host_plain h = true
  /\ lacks "#" h = true /\ lacks "?" h = true /\ lacks "/" h = true
  /\ lacks "@" h = true /\ lacks ":" h = true /\ lacks "[" h = true
  /\ url.stringContainsCTLByte h = false.
Proof.
  intros H.
  split; [apply (all_bytes_impl host_byte); [|exact H];
          intros c Hc; now destruct (host_byte_facts c Hc)|].
  repeat split;
    try (apply (all_bytes_lacks host_byte); [|exact H];
         intros c Hc; now destruct (host_byte_facts c Hc) as (_&?&?&?&?&?&?&_)).
  apply (all_bytes_no_CTL host_byte); [|exact H].
  intros c Hc. now destruct (host_byte_facts c Hc) as (_&_&_&_&_&_&_&?).
Qed.

(** The same for a host name with a port, but for the colon. *)
Lemma host_port_facts h p :
  all_bytes host_byte h = true -> url.all_digits p = true ->
  all_bytes host_plain (h ++ ":" ++ p) = true
  /\ lacks "#" (h ++ ":" ++ p) = true /\ lacks "?" (h ++ ":" ++ p) = true
  /\ lacks "/" (h ++ ":" ++ p) = true /\ lacks "@" (h ++ ":" ++ p) = true
  /\ lacks "[" (h ++ ":" ++ p) = true
  /\ url.stringContainsCTLByte (h ++ ":" ++ p) = false.
Proof.
  intros Hh Hp.
  destruct (host_bytes_facts h Hh) as (H1 & H2 & H3 & H4 & H5 & _ & H7 & H8).
  destruct (host_bytes_facts p (all_digits_host_bytes p Hp))
    as (P1 & P2 & P3 & P4 & P5 & _ & P7 & P8).
  rewrite all_bytes_app, !lacks_app, CTL_app, H1, H2, H3, H4, H5, H7, H8.
  cbn [append all_bytes lacks andb orb].
  change (url.stringContainsCTLByte (String ":" p)) with (url.stringContainsCTLByte p).
  rewrite P1, P2, P3, P4, P5, P7, P8.
  repeat split.
Qed.

Lemma parseHost_with_port h p :
  all_bytes host_byte h = true -> url.all_digits p = true ->
  url.parseHost (h ++ ":" ++ p) = inr (h ++ ":" ++ p).
Proof.
  intros Hh Hp.
  destruct (host_port_facts h p Hh Hp) as (Hplain & _ & _ & _ & _ & Hb & _).
  unfold url.parseHost. rewrite (lacks_HasPrefix "[" _ Hb).
  change (h ++ ":" ++ p) with (h ++ String ":" p) in *.
  rewrite LastIndex_app_lacks by now apply all_digits_lacks_colon.
  rewrite drop_app_exact. cbn [url.validOptionalPort].
  rewrite Ascii.eqb_refl, Hp. cbn [negb].
  now apply unescape_host.
Qed.

Lemma parseHost_without_port h :
  all_bytes host_byte h = true -> url.parseHost h = inr h.
Proof.
  intros Hh.
  destruct (host_bytes_facts h Hh) as (Hplain & _ & _ & _ & _ & Hc & Hb & _).
  unfold url.parseHost. rewrite (lacks_HasPrefix "[" _ Hb).
  rewrite LastIndex_lacks by assumption.
  now apply unescape_host.
Qed.

(** An authority without userinfo. *)
Lemma parseAuthority_host a :
  lacks "@" a = true ->
  url.parseAuthority a =
  match url.parseHost a with
  | inl e => inl e
  | inr host => inr (None, host)
  end.
Proof.
  intros H. unfold url.parseAuthority. rewrite LastIndex_lacks by assumption.
  destruct (url.parseHost a); reflexivity.
Qed.

(** [parse] after the scheme, on [//authority path] for an authority that
    [parseHost] keeps as it is. *)
Lemma parse_after_scheme_plain s a path :
  url.is_empty s = false ->
  lacks "?" a = true -> lacks "/" a = true -> lacks "@" a = true ->
  url.parseHost a = inr a ->
  plain_path path = true ->
  url.parse_after_scheme false s ("//" ++ a ++ path)
  = inr (url.mkURL s EmptyString None a path false false EmptyString EmptyString).
Proof.
  intros Hs Hq Hsl Hat Hhost Hpath.
  unfold plain_path in Hpath.
  repeat (apply andb_true_iff in Hpath; destruct Hpath as [Hpath ?]).
  unfold url.parse_after_scheme.
  rewrite split_query_lacks
    by (cbn [append lacks Ascii.eqb Bool.eqb negb andb]; rewrite lacks_app, Hq; assumption).
  cbn [append strings.HasPrefix Ascii.eqb Bool.eqb andb negb].
  unfold url.parse_hier, url.parse_authority_part. rewrite Hs.
  cbn [negb orb andb append strings.HasPrefix Ascii.eqb Bool.eqb strings.drop].
  rewrite Index_app_lacks by assumption.
  assert (Hcut :
    (let '(authority, rest') :=
       match option_map (Nat.add (String.length a)) (strings.Index path "/") with
       | Some i => (strings.take i (a ++ path), strings.drop i (a ++ path))
       | None => (a ++ path, EmptyString)
       end in
     match url.parseAuthority authority with
     | inl e => inl e
     | inr (user, host) => inr (user, host, false, rest')
     end) = @inr url.parse_error _ (@None url.Userinfo, a, false, path)).
  { destruct path as [|c path].
    - cbn [strings.Index strings.HasPrefix option_map]. rewrite app_empty_r.
      rewrite parseAuthority_host, Hhost by assumption. reflexivity.
    - cbn [url.is_empty orb strings.HasPrefix] in Hpath.
      rewrite andb_true_r in Hpath. apply Ascii.eqb_eq in Hpath. subst c.
      rewrite (Index_byte_cons "/"), Ascii.eqb_refl. cbn [option_map].
      rewrite take_app_plus, drop_app_plus. cbn [strings.take strings.drop].
      rewrite app_empty_r, parseAuthority_host, Hhost by assumption. reflexivity. }
  rewrite Hcut. rewrite unescape_path by assumption. reflexivity.
Qed.

Lemma splitHostPort_with_port h p :
  all_bytes host_byte h = true -> url.all_digits p = true ->
  url.splitHostPort (h ++ ":" ++ p) = (h, p).
Proof.
  intros Hh Hp.
  destruct (host_bytes_facts h Hh) as (_ & _ & _ & _ & _ & _ & Hb & _).
  unfold url.splitHostPort, strings.LastIndexByte.
  change (h ++ ":" ++ p) with (h ++ String ":" p).
  rewrite LastIndex_app_lacks by now apply all_digits_lacks_colon.
  rewrite drop_app_exact. cbn [url.validOptionalPort].
  rewrite Ascii.eqb_refl, Hp, take_app_exact, drop_S_app.
  now rewrite (lacks_HasPrefix "[" _ Hb).
Qed.

Lemma splitHostPort_without_port h :
  all_bytes host_byte h = true -> url.splitHostPort h = (h, EmptyString).
Proof.
  intros Hh.
  destruct (host_bytes_facts h Hh) as (_ & _ & _ & _ & _ & Hc & Hb & _).
  unfold url.splitHostPort, strings.LastIndexByte.
  rewrite LastIndex_lacks by assumption.
  now rewrite (lacks_HasPrefix "[" _ Hb).
Qed.

(** [Parse] on [scheme://authority path] for an authority that [parseHost]
    keeps as it is. *)
Lemma Parse_plain scheme a path :
  is_scheme scheme = true ->
  lacks "#" a = true -> lacks "?" a = true -> lacks "/" a = true ->
  lacks "@" a = true -> url.stringContainsCTLByte a = false ->
  url.parseHost a = inr a ->
  plain_path path = true ->
  url.Parse (scheme ++ "://" ++ a ++ path)
  = inr (url.mkURL (strings.ToLower scheme) EmptyString None a path
                   false false EmptyString EmptyString).
Proof.
  intros Hs Hh Hq Hsl Hat Hctl Hhost Hpath.
  change (scheme ++ "://" ++ a ++ path) with (scheme ++ ":" ++ ("//" ++ a ++ path)).
  rewrite Parse_scheme by assumption.
  pose proof Hpath as Hpath'. unfold plain_path in Hpath'.
  repeat (apply andb_true_iff in Hpath'; destruct Hpath' as [Hpath' ?]).
  match goal with H : negb _ = true |- _ => apply negb_true_iff in H end.
  rewrite Cut_lacks
    by (cbn [append lacks Ascii.eqb Bool.eqb negb andb]; rewrite lacks_app, Hh; assumption).
  assert (Hc : url.stringContainsCTLByte ("//" ++ a ++ path) = false).
  { change ("//" ++ a ++ path) with ("//" ++ (a ++ path)).
    rewrite !CTL_app, Hctl. cbn [orb]. assumption. }
  rewrite Hc, parse_after_scheme_plain; try assumption; [reflexivity|].
  now apply ToLower_not_empty.
Qed.

(** From the text of a URL to the target: for a scheme, a plain host name,
    digits and a plain path. *)
Lemma resolve_plain_url scheme h p path :
  is_scheme scheme = true ->
  all_bytes host_byte h = true ->
  url.all_digits p = true ->
  plain_path path = true ->
  target_of (scheme ++ "://" ++ h ++ ":" ++ p ++ path)
  = Some (mkTarget h (if String.eqb p EmptyString then "80" else p) path)
  /\ target_of (scheme ++ "://" ++ h ++ path) = Some (mkTarget h "80" path).
Proof.
  intros Hs Hh Hp Hpath. split.
  - destruct (host_port_facts h p Hh Hp) as (_ & H1 & H2 & H3 & H4 & _ & H6).
    unfold target_of.
    replace (scheme ++ "://" ++ h ++ ":" ++ p ++ path)
      with (scheme ++ "://" ++ (h ++ ":" ++ p) ++ path)
      by (rewrite !app_assoc_s; reflexivity).
    rewrite Parse_plain; try assumption; [|now apply parseHost_with_port].
    unfold resolve, url.Hostname, url.Port. cbn [url.Host url.Path].
    now rewrite splitHostPort_with_port.
  - destruct (host_bytes_facts h Hh) as (_ & H1 & H2 & H3 & H4 & _ & _ & H6).
    unfold target_of.
    rewrite Parse_plain; try assumption; [|now apply parseHost_without_port].
    unfold resolve, url.Hostname, url.Port. cbn [url.Host url.Path].
    now rewrite splitHostPort_without_port.
Qed.

(** The last [c] of a string is where [LastIndex] says. *)
Lemma LastIndex_byte_sound c s i :
  strings.LastIndex s (String c EmptyString) = Some i ->
  strings.drop i s = String c (strings.drop (S i) s).
Proof.
  revert i. induction s as [|d s IH]; intros i.
  - cbn [strings.LastIndex strings.HasPrefix]. discriminate.
  - cbn [strings.LastIndex].
    destruct (strings.LastIndex s (String c EmptyString)) as [j|].
    + intros H. injection H as <-.
      change (strings.drop (S j) (String d s)) with (strings.drop j s).
      change (strings.drop (S (S j)) (String d s)) with (strings.drop (S j) s).
      now apply IH.
    + cbn [strings.HasPrefix].
      destruct (Ascii.eqb_spec d c) as [->|_]; [|discriminate].
      intros H. injection H as <-. reflexivity.
Qed.

Lemma app_take_drop n s : strings.take n s ++ strings.drop n s = s.
Proof.
  revert s. induction n as [|n IH]; intros [|c s]; try reflexivity.
  cbn [strings.take strings.drop append]. now rewrite IH.
Qed.

(** [Port()] is empty when no colon of the host is followed by digits only
    up to the end. *)
Lemma splitHostPort_no_suffix hostPort :
  (forall h p, hostPort = h ++ ":" ++ p -> url.all_digits p = false) ->
  snd (url.splitHostPort hostPort) = EmptyString.
Proof.
  intros H. unfold url.splitHostPort, strings.LastIndexByte.
  destruct (strings.LastIndex hostPort ":") as [colon|] eqn:E; [|reflexivity].
  pose proof (LastIndex_byte_sound ":" hostPort colon E) as Hd.
  assert (Hsplit : hostPort
                   = strings.take colon hostPort ++ ":" ++ strings.drop (S colon) hostPort).
  { rewrite <- (app_take_drop colon hostPort) at 1. now rewrite Hd. }
  rewrite Hd. cbn [url.validOptionalPort]. rewrite Ascii.eqb_refl.
  now rewrite (H _ _ Hsplit).
Qed.

Lemma all_digits_bracket q : url.all_digits (q ++ "]") = false.
Proof.
  induction q as [|c q IH]; [reflexivity|].
  cbn [append url.all_digits]. now rewrite IH, andb_false_r.
Qed.

(** In a host that ends with ']', what follows a colon is never digits only. *)
Lemma no_port_before_bracket a h p :
  a ++ "]" = h ++ ":" ++ p -> url.all_digits p = false.
Proof.
  revert h. induction a as [|d a IH]; intros [|c h] E; cbn [append] in E.
  - discriminate.
  - injection E as _ E. destruct h; discriminate.
  - injection E as _ E. rewrite <- E. apply all_digits_bracket.
  - injection E as _ E. now apply (IH h).
Qed.

(** The resolved port is "80" when the host has no port. *)
Lemma resolved_port_default (u : url.URL) :
  ((forall h p, url.Host u = h ++ ":" ++ p -> url.all_digits p = false) ->
   port (resolve u) = "80")
  /\ (forall x, url.Host u = "[" ++ x ++ "]" -> port (resolve u) = "80").
Proof.
  assert (H : (forall h p, url.Host u = h ++ ":" ++ p -> url.all_digits p = false) ->
              port (resolve u) = "80").
  { intros H. unfold resolve, url.Port. cbn [port].
    now rewrite splitHostPort_no_suffix. }
  split; [exact H|].
  intros x Hx. apply H. intros h p E. rewrite Hx in E.
  apply (no_port_before_bracket ("[" ++ x) h p).
  rewrite <- E. now rewrite app_assoc_s.
Qed.

(** C2. The resolved port is [u.Port()] when that is not empty and "80"
    otherwise, whatever the scheme. For every URL that [url.Parse] accepts:
    when the host part of the authority ends in a colon and digits, the port
    is these digits as they stand; in every other case it is "80": when
    nothing follows the last colon, and when no colon of the host is
    followed by digits only up to its end, which is so when the host has no
    colon at all and when it is an IP literal in brackets without a port,
    such as [[::1]]. And from the text of a URL: for a
    scheme, a plain host name, digits and a plain path,
    [scheme://host:digits path] resolves to the port made of these digits
    (or to "80" when there are none), and [scheme://host path] to "80". *)
Theorem port_explicit_or_default :
  (forall rawURL u,
     url.Parse rawURL = inr u ->
     port (resolve u)
     = (if String.eqb (url.Port u) EmptyString then "80" else url.Port u)
     /\ (forall h p, url.Host u = h ++ ":" ++ p ->
                     p <> EmptyString -> url.all_digits p = true ->
                     port (resolve u) = p)
     /\ (lacks ":" (url.Host u) = true -> port (resolve u) = "80")
     /\ (forall h, url.Host u = h ++ ":" -> port (resolve u) = "80")
     /\ ((forall h p, url.Host u = h ++ ":" ++ p -> url.all_digits p = false) ->
         port (resolve u) = "80")
     /\ (forall x, url.Host u = "[" ++ x ++ "]" -> port (resolve u) = "80"))
  /\ (forall scheme h p path,
        is_scheme scheme = true ->
        all_bytes host_byte h = true ->
        url.all_digits p = true ->
        plain_path path = true ->
        option_map port (target_of (scheme ++ "://" ++ h ++ ":" ++ p ++ path))
        = Some (if String.eqb p EmptyString then "80" else p)
        /\ option_map port (target_of (scheme ++ "://" ++ h ++ path)) = Some "80").
Proof.
  split.
  - intros rawURL u _.
    destruct (resolved_port u) as (H1 & H2 & H3 & H4).
    destruct (resolved_port_default u) as (H5 & H6).
    repeat split; assumption.
  - intros scheme h p path Hs Hh Hp Hpath.
    destruct (resolve_plain_url scheme h p path Hs Hh Hp Hpath) as [-> ->].
    split; reflexivity.
Qed.

(** An IP literal without a port is dialed on port 80. *)
Example port_of_ip_literal :
  option_map port (target_of "http://[::1]/") = Some "80"
  /\ option_map port (target_of "https://[2001:db8::1]/x") = Some "80"
  /\ option_map port (target_of "http://[::1]:8080/") = Some "8080".
Proof. vm_compute. repeat split. Qed.

Lemma port_explicit_or_default_witness :
  option_map port (target_of ("http" ++ "://" ++ "example.com" ++ ":" ++ "8080" ++ "/x"))
  = Some "8080"
  /\ option_map port (target_of ("http" ++ "://" ++ "example.com" ++ "/x"))
     = Some "80".
Proof.
  exact (proj2 port_explicit_or_default "http" "example.com" "8080" "/x"
               eq_refl eq_refl eq_refl eq_refl).
Defined.

(** ** The path *)

(** C7, as the code has it. [http://example.com/get] resolves to the path
    [/get] and [http://example.com] to the empty path; in general a plain
    path after a plain host name is resolved as it stands. The exchange
    frames whatever path it is given as it stands too, so that the request
    line of an empty path is [GET  HTTP/1.0], with nothing between the two
    spaces. *)
Theorem path_extraction_and_framing :
  option_map path (target_of "http://example.com/get") = Some "/get"
  /\ option_map path (target_of "http://example.com") = Some EmptyString
  /\ (forall scheme h pth,
        is_scheme scheme = true -> all_bytes host_byte h = true ->
        plain_path pth = true ->
        option_map path (target_of (scheme ++ "://" ++ h ++ pth)) = Some pth)
  /\ forall (w : World) (h pt : string),
       let st := snd (call (exchange w (mkTarget h pt EmptyString)) init) in
       writes_of (trace st) =
       match connect w "tcp" (h ++ ":" ++ pt) with
       | inr _ => ["GET  HTTP/1.0" ++ CRLF ++ "Host: " ++ h ++ CRLF ++ CRLF]
       | inl _ => []
       end.
Proof.
  split; [vm_compute; reflexivity|]. split; [vm_compute; reflexivity|].
  split.
  { intros scheme h pth Hs Hh Hp.
    destruct (resolve_plain_url scheme h EmptyString pth Hs Hh eq_refl Hp) as [_ ->].
    reflexivity. }
  intros w h pt. cbv zeta. rewrite call_exchange_steps. unfold address.
  cbn [host port path].
  destruct (connect w "tcp" (h ++ ":" ++ pt)) as [d|p]; [reflexivity|].
  unfold finished. destruct (incoming p); [destruct (ending p)|]; reflexivity.
Qed.

Lemma path_extraction_and_framing_witness :
  option_map path (target_of ("http" ++ "://" ++ "example.com" ++ "/get")) = Some "/get".
Proof.
  exact (proj1 (proj2 (proj2 path_extraction_and_framing))
               "http" "example.com" "/get" eq_refl eq_refl eq_refl).
Defined.

(** C7 fails in its last part: the request written for [http://example.com]
    is not the request for the root [/]. *)
Lemma empty_path_is_not_sent_as_root :
  target_of "http://example.com" = Some (mkTarget "example.com" "80" EmptyString)
  /\ writes_of (trace (snd (Execute stub_server ["http://example.com"])))
     = ["GET  HTTP/1.0" ++ CRLF ++ "Host: example.com" ++ CRLF ++ CRLF]
  /\ writes_of (trace (snd (Execute stub_server ["http://example.com/"])))
     = ["GET / HTTP/1.0" ++ CRLF ++ "Host: example.com" ++ CRLF ++ CRLF]
  /\ String.eqb ("GET  HTTP/1.0" ++ CRLF ++ "Host: example.com" ++ CRLF ++ CRLF)
                ("GET / HTTP/1.0" ++ CRLF ++ "Host: example.com" ++ CRLF ++ CRLF)
     = false.
Proof. vm_compute. repeat split. Qed.

(** * Further properties of [cmd/root.go] *)

(** ** The dial that fails *)

(** X1. When [net.Dial] fails (lines 46-49) the program panics with the
    dial error: it has dialed once, the address [host:port] on "tcp"; no
    socket exists, nothing was written, read or closed, and standard output
    is empty. The exit status is that of a panic. *)
Theorem dial_failure_is_fatal (w : World) (arg : string) (u : url.URL) (d : string) :
  url.Parse arg = inr u ->
  connect w "tcp" (host (resolve u) ++ ":" ++ port (resolve u)) = inl d ->
  let o := fst (Execute w [arg]) in
  let st := snd (Execute w [arg]) in
  o = Crashed (ErrOp "dial" d)
  /\ exit_status o = Some 2
  /\ dials_of (trace st) = [("tcp", host (resolve u) ++ ":" ++ port (resolve u))]
  /\ writes_of (trace st) = []
  /\ reads_of (trace st) = []
  /\ closes_of (trace st) = 0
  /\ socks st = []
  /\ stdout_of (trace st) = EmptyString.
Proof.
  intros HP HC. cbv zeta. rewrite Execute_steps, HP. cbv zeta.
  unfold address. rewrite HC. repeat split.
Qed.

Lemma dial_failure_is_fatal_witness :
  fst (Execute refusing ["http://example.com/get"])
  = Crashed (ErrOp "dial" "connection refused")
  /\ exit_status (fst (Execute refusing ["http://example.com/get"])) = Some 2
  /\ dials_of (trace (snd (Execute refusing ["http://example.com/get"])))
     = [("tcp", "example.com" ++ ":" ++ "80")]
  /\ writes_of (trace (snd (Execute refusing ["http://example.com/get"]))) = []
  /\ reads_of (trace (snd (Execute refusing ["http://example.com/get"]))) = []
  /\ closes_of (trace (snd (Execute refusing ["http://example.com/get"]))) = 0
  /\ socks (snd (Execute refusing ["http://example.com/get"])) = []
  /\ stdout_of (trace (snd (Execute refusing ["http://example.com/get"]))) = EmptyString.
Proof.
  exact (dial_failure_is_fatal refusing "http://example.com/get" _
           "connection refused" eq_refl eq_refl).
Defined.

(** ** One exchange, in order *)

(** X2. Whatever the arguments and the network, an execution does one of
    four things on the network and nothing else: nothing at all; one dial;
    one dial and one write (when the read then blocks); or one dial, one
    write, one read into the 1024-byte buffer and one close, in this order.
    There is no second connection, no retry, no second read, and never a
    read before the write. *)
Theorem one_exchange_in_order (w : World) (args : list string) :
  let net := network_of (trace (snd (Execute w args))) in
  net = []
  \/ (exists a, net = [EvDial "tcp" a])
  \/ (exists a r, net = [EvDial "tcp" a; EvWrite 0 r])
  \/ (exists a r d e, net = [EvDial "tcp" a; EvWrite 0 r; EvRead 0 1024 d e; EvClose 0]).
Proof.
  cbv zeta. destruct args as [|arg [|arg' args]].
  - rewrite Execute_arity by (simpl; lia). left. reflexivity.
  - rewrite Execute_steps.
    destruct (url.Parse arg) as [err|u]; [left; reflexivity|]. cbv zeta.
    destruct (connect w "tcp" (address (resolve u))) as [dt|p].
    + right. left. eexists. reflexivity.
    + unfold finished.
      destruct (incoming p); [destruct (ending p)|].
      * right. right. left. do 2 eexists. reflexivity.
      * right. right. right. do 4 eexists. reflexivity.
      * right. right. right. do 4 eexists. reflexivity.
      * right. right. right. do 4 eexists. reflexivity.
  - rewrite Execute_arity by (simpl; lia). left. reflexivity.
Qed.

(** ** Standard output and standard error *)

(** X3. An invocation that does not exit with status 0 has written nothing
    on standard output: there is no partial result on any failure path, nor
    while the read is blocked. *)
Theorem no_output_without_success (w : World) (args : list string) :
  fst (Execute w args) <> Exited 0 ->
  stdout_of (trace (snd (Execute w args))) = EmptyString.
Proof.
  destruct args as [|arg [|arg' args]].
  - rewrite Execute_arity by (simpl; lia). reflexivity.
  - rewrite Execute_steps.
    destruct (url.Parse arg) as [err|u]; [reflexivity|]. cbv zeta.
    destruct (connect w "tcp" (address (resolve u))) as [dt|p]; [reflexivity|].
    unfold finished.
    destruct (incoming p); [destruct (ending p)|]; cbn [fst snd outcome_of];
      intros H; try reflexivity.
    exfalso. apply H. reflexivity.
  - rewrite Execute_arity by (simpl; lia). reflexivity.
Qed.

Lemma no_output_without_success_witness :
  stdout_of (trace (snd (Execute resetting ["http://example.com/get"]))) = EmptyString.
Proof.
  refine (no_output_without_success resetting ["http://example.com/get"] _).
  vm_compute. discriminate.
Defined.

(** X4. For every argument that parses, the first three things the program
    does are the three lines of lines 42-44 on standard error, [Host: ],
    [Port: ] and [Path: ] with the resolved values; they are printed before
    the dial and whatever its result, and none of them goes to standard
    output. (What the Go runtime prints for a panic is not in the trace.) *)
Theorem banner_on_stderr_first (w : World) (arg : string) (u : url.URL) :
  url.Parse arg = inr u ->
  exists rest,
    trace (snd (Execute w [arg]))
    = ([ EvStderr ("Host: " ++ host (resolve u) ++ String LF EmptyString);
         EvStderr ("Port: " ++ port (resolve u) ++ String LF EmptyString);
         EvStderr ("Path: " ++ path (resolve u) ++ String LF EmptyString);
         EvDial "tcp" (host (resolve u) ++ ":" ++ port (resolve u)) ] ++ rest)%list.
Proof.
  intros HP. rewrite Execute_steps, HP. cbv zeta.
  destruct (connect w "tcp" (address (resolve u))) as [dt|p].
  - exists []. reflexivity.
  - unfold finished.
    destruct (incoming p); [destruct (ending p)|]; cbn [fst snd trace];
      eexists; unfold banner, address; cbn [app String.concat];
      rewrite <- !app_assoc_s; cbn [append]; reflexivity.
Qed.

Lemma banner_on_stderr_first_witness :
  exists rest,
    trace (snd (Execute refusing ["http://example.com:8080/get"]))
    = ([ EvStderr ("Host: " ++ "example.com" ++ String LF EmptyString);
         EvStderr ("Port: " ++ "8080" ++ String LF EmptyString);
         EvStderr ("Path: " ++ "/get" ++ String LF EmptyString);
         EvDial "tcp" ("example.com" ++ ":" ++ "8080") ] ++ rest)%list.
Proof.
  exact (banner_on_stderr_first refusing "http://example.com:8080/get" _ eq_refl).
Defined.

(** ** How an invocation ends *)

(** X5. There is no timeout: an invocation blocks for ever exactly when its
    one argument parses, the dial succeeds, and the peer neither sends a
    byte nor ends the stream. The request has then been written, and the
    socket stays open: the deferred close has not run. *)
Theorem blocks_iff_peer_is_silent (w : World) (args : list string) :
  (fst (Execute w args) = Hung <->
   exists arg u p,
     args = [arg] /\ url.Parse arg = inr u
     /\ connect w "tcp" (host (resolve u) ++ ":" ++ port (resolve u)) = inr p
     /\ incoming p = EmptyString /\ ending p = NeverEnds)
  /\ (fst (Execute w args) = Hung ->
      List.length (writes_of (trace (snd (Execute w args)))) = 1
      /\ closes_of (trace (snd (Execute w args))) = 0
      /\ open_sockets (snd (Execute w args)) = 1).
Proof.
  destruct args as [|arg [|arg' args]].
  - rewrite Execute_arity by (simpl; lia). split; [split|]; try discriminate.
    intros (a & u & p & E & _). discriminate.
  - rewrite Execute_steps.
    destruct (url.Parse arg) as [err|u] eqn:HP.
    { split; [split|]; try discriminate.
      intros (a & u & p & E & HP' & _). injection E as <-. congruence. }
    cbv zeta.
    destruct (connect w "tcp" (address (resolve u))) as [dt|p] eqn:HC.
    { split; [split|]; try discriminate.
      intros (a & u' & p & E & HP' & HC' & _). injection E as <-.
      unfold address in HC. congruence. }
    unfold finished.
    assert (Hsame : forall a u' p',
              [a] = [arg] -> url.Parse a = inr u' ->
              connect w "tcp" (host (resolve u') ++ ":" ++ port (resolve u')) = inr p' ->
              p' = p).
    { intros a u' p' E HP' HC'. injection E as ->. unfold address in HC. congruence. }
    destruct (incoming p) as [|c s] eqn:Hi; [destruct (ending p) eqn:He|];
      cbn [fst snd outcome_of].
    + split; [split|].
      * intros _. exists arg, u, p. repeat split; assumption.
      * reflexivity.
      * intros _. repeat split.
    + split; [split|]; try discriminate.
      intros (a & u' & p' & E & HP' & HC' & Hi' & He'). symmetry in E.
      rewrite (Hsame a u' p' E HP' HC') in He'. congruence.
    + split; [split|]; try discriminate.
      intros (a & u' & p' & E & HP' & HC' & Hi' & He'). symmetry in E.
      rewrite (Hsame a u' p' E HP' HC') in He'. congruence.
    + split; [split|]; try discriminate.
      intros (a & u' & p' & E & HP' & HC' & Hi' & He'). symmetry in E.
      rewrite (Hsame a u' p' E HP' HC') in Hi'. congruence.
  - rewrite Execute_arity by (simpl; lia). split; [split|]; try discriminate.
    intros (a & u & p & E & _). discriminate.
Qed.

(** ** What the resolver always yields *)

Lemma drop_S_tail n s :
  strings.drop (S n) s =
  match strings.drop n s with
  | EmptyString => EmptyString
  | String _ r => r
  end.
Proof.
  revert s. induction n as [|n IH]; intros [|c s]; try reflexivity.
  exact (IH s).
Qed.

(** [Port()] is made of digits, whatever the host. *)
Lemma Port_all_digits (hostPort : string) :
  url.all_digits (snd (url.splitHostPort hostPort)) = true.
Proof.
  unfold url.splitHostPort.
  destruct (strings.LastIndexByte hostPort ":") as [colon|]; [|reflexivity].
  destruct (url.validOptionalPort (strings.drop colon hostPort)) eqn:V;
    [|reflexivity].
  cbn [snd]. rewrite drop_S_tail.
  destruct (strings.drop colon hostPort) as [|c r]; [reflexivity|].
  cbn [url.validOptionalPort] in V.
  destruct (Ascii.eqb c ":"); [exact V | discriminate].
Qed.

(** X7. Whatever URL [url.Parse] returned, the resolved port is a non-empty
    string of decimal digits: [Port()] only ever returns digits, and line 38
    replaces the empty one by "80". So the address dialed always ends in
    a colon and a number. *)
Theorem resolved_port_is_a_number (u : url.URL) :
  url.all_digits (port (resolve u)) = true
  /\ url.is_empty (port (resolve u)) = false
  /\ exists digits,
       fmt.Sprintf "%s:%s" [host (resolve u); port (resolve u)]
       = host (resolve u) ++ ":" ++ digits
       /\ url.all_digits digits = true /\ url.is_empty digits = false.
Proof.
  assert (H : url.all_digits (port (resolve u)) = true
              /\ url.is_empty (port (resolve u)) = false).
  { unfold resolve, url.Port. cbn [port].
    pose proof (Port_all_digits (url.Host u)) as HD.
    destruct (snd (url.splitHostPort (url.Host u))) as [|c r];
      [split; reflexivity | split; [exact HD | reflexivity]]. }
  destruct H as [H1 H2]. repeat split; try assumption.
  exists (port (resolve u)). rewrite Sprintf_address. repeat split; assumption.
Qed.

(** ** An IPv6 literal loses its brackets *)

Lemma HasSuffix_app (a b : string) : strings.HasSuffix (a ++ b) b = true.
Proof.
  unfold strings.HasSuffix. rewrite length_app_s.
  replace (String.length a + String.length b - String.length b)
    with (String.length a) by lia.
  rewrite drop_app_exact, String.eqb_refl.
  destruct (Nat.leb_spec (String.length b) (String.length a + String.length b));
    [reflexivity | lia].
Qed.

(** X8. [Hostname()] strips the brackets of an IP literal, and line 46
    joins host and port with a colon again: for a URL whose host is
    [[x]:digits], the address dialed is [x:digits] (or [x:80] without
    digits), the brackets are gone, and the Host header carries [x]. For
    [http://[::1]:8080/] that address is [::1:8080]. *)
Theorem ip_literal_is_dialed_without_brackets (u : url.URL) (x p : string) :
  url.Host u = "[" ++ x ++ "]" ++ ":" ++ p ->
  url.all_digits p = true ->
  host (resolve u) = x
  /\ port (resolve u) = (if String.eqb p EmptyString then "80" else p)
  /\ fmt.Sprintf "%s:%s" [host (resolve u); port (resolve u)]
     = x ++ ":" ++ (if String.eqb p EmptyString then "80" else p)
  /\ fmt.Sprintf request_format [path (resolve u); host (resolve u)]
     = "GET " ++ url.Path u ++ " HTTP/1.0" ++ CRLF ++ "Host: " ++ x ++ CRLF ++ CRLF.
Proof.
  intros HH Hp.
  assert (Hsplit : url.splitHostPort (url.Host u) = (x, p)).
  { rewrite HH. unfold url.splitHostPort, strings.LastIndexByte.
    replace ("[" ++ x ++ "]" ++ ":" ++ p) with (("[" ++ x ++ "]") ++ String ":" p)
      by (cbn [append]; rewrite app_assoc_s; reflexivity).
    rewrite LastIndex_app_lacks by now apply all_digits_lacks_colon.
    rewrite drop_app_exact. cbn [url.validOptionalPort].
    rewrite Ascii.eqb_refl, Hp, take_app_exact, drop_S_app.
    change ("[" ++ x ++ "]") with (String "[" (x ++ "]")).
    cbn [strings.HasPrefix Ascii.eqb Bool.eqb andb].
    change (String "[" (x ++ "]")) with ("[" ++ x ++ "]") at 1.
    replace ("[" ++ x ++ "]") with (("[" ++ x) ++ "]") at 1
      by (rewrite app_assoc_s; reflexivity).
    rewrite HasSuffix_app.
    cbn [String.length strings.drop].
    rewrite length_app_s. cbn [String.length].
    replace (S (String.length x + 1) - 2) with (String.length x) by lia.
    now rewrite take_app_exact. }
  assert (Ht : resolve u = mkTarget x (if String.eqb p EmptyString then "80" else p)
                                    (url.Path u)).
  { unfold resolve, url.Hostname, url.Port. now rewrite Hsplit. }
  rewrite Sprintf_address, Sprintf_request. unfold address, wire_request.
  rewrite Ht. cbn [host port path]. repeat split.
Qed.

Lemma ip_literal_is_dialed_without_brackets_witness :
  url.Parse "http://[::1]:8080/"
  = inr (url.mkURL "http" EmptyString None ("[" ++ "::1" ++ "]" ++ ":" ++ "8080") "/"
                   false false EmptyString EmptyString)
  /\ dials_of (trace (snd (Execute refusing ["http://[::1]:8080/"])))
     = [("tcp", "::1:8080")]
  /\ fmt.Sprintf "%s:%s"
       [host (resolve (url.mkURL "http" EmptyString None
                                 ("[" ++ "::1" ++ "]" ++ ":" ++ "8080") "/"
                                 false false EmptyString EmptyString));
        port (resolve (url.mkURL "http" EmptyString None
                                 ("[" ++ "::1" ++ "]" ++ ":" ++ "8080") "/"
                                 false false EmptyString EmptyString))]
     = "::1" ++ ":" ++ "8080".
Proof.
  split; [vm_compute; reflexivity|]. split; [vm_compute; reflexivity|].
  exact (proj1 (proj2 (proj2
           (ip_literal_is_dialed_without_brackets
              (url.mkURL "http" EmptyString None ("[" ++ "::1" ++ "]" ++ ":" ++ "8080") "/"
                         false false EmptyString EmptyString)
              "::1" "8080" eq_refl eq_refl)))).
Defined.

(** ** From the text of a URL to the wire *)

(** The bytes written, from the target the argument resolves to. *)
Lemma writes_of_Execute w arg :
  writes_of (trace (snd (Execute w [arg]))) =
  match target_of arg with
  | None => []
  | Some t =>
      match connect w "tcp" (address t) with
      | inl _ => []
      | inr _ => [wire_request t]
      end
  end.
Proof.
  rewrite Execute_final_state. unfold final_state.
  destruct (target_of arg) as [t|]; [|reflexivity].
  destruct (connect w "tcp" (address t)) as [d|p]; [reflexivity|].
  unfold finished. destruct (incoming p); [destruct (ending p)|]; reflexivity.
Qed.

Lemma dials_of_Execute w arg :
  dials_of (trace (snd (Execute w [arg]))) =
  match target_of arg with
  | None => []
  | Some t => [("tcp", address t)]
  end.
Proof.
  rewrite Execute_final_state. unfold final_state.
  destruct (target_of arg) as [t|]; [|reflexivity].
  destruct (connect w "tcp" (address t)) as [d|p]; [reflexivity|].
  unfold finished. destruct (incoming p); [destruct (ending p)|]; reflexivity.
Qed.

(** An argument that does not resolve ends the program before it does
    anything. *)
Lemma Execute_unresolved w arg e :
  url.Parse arg = inl e -> Execute w [arg] = (Crashed (ErrParse e), init).
Proof. intros H. now rewrite Execute_steps, H. Qed.

(** [parse] after the scheme, on [//authority path]. *)
Lemma parse_after_scheme_authority s a pth :
  url.is_empty s = false ->
  lacks "?" a = true -> lacks "/" a = true ->
  (url.is_empty pth || strings.HasPrefix pth "/") = true ->
  lacks "?" pth = true ->
  url.parse_after_scheme false s ("//" ++ a ++ pth) =
  match url.parseAuthority a with
  | inl e => inl e
  | inr (user, hst) =>
      match url.unescape pth url.encodePath with
      | inl e => inl e
      | inr decoded =>
          inr (url.mkURL s EmptyString user hst decoded false false EmptyString EmptyString)
      end
  end.
Proof.
  intros Hs Hq Hsl Hstart Hpq.
  unfold url.parse_after_scheme.
  rewrite split_query_lacks
    by (cbn [append lacks Ascii.eqb Bool.eqb negb andb]; rewrite lacks_app, Hq; assumption).
  cbn [append strings.HasPrefix Ascii.eqb Bool.eqb andb negb].
  unfold url.parse_hier, url.parse_authority_part. rewrite Hs.
  cbn [negb orb andb append strings.HasPrefix Ascii.eqb Bool.eqb strings.drop].
  rewrite Index_app_lacks by assumption.
  assert (Hcut :
    match option_map (Nat.add (String.length a)) (strings.Index pth "/") with
    | Some i => (strings.take i (a ++ pth), strings.drop i (a ++ pth))
    | None => (a ++ pth, EmptyString)
    end = (a, pth)).
  { destruct pth as [|c pth].
    - cbn [strings.Index strings.HasPrefix option_map]. now rewrite app_empty_r.
    - cbn [url.is_empty orb strings.HasPrefix] in Hstart.
      rewrite andb_true_r in Hstart. apply Ascii.eqb_eq in Hstart. subst c.
      rewrite (Index_byte_cons "/"), Ascii.eqb_refl. cbn [option_map].
      rewrite take_app_plus, drop_app_plus. cbn [strings.take strings.drop].
      now rewrite app_empty_r. }
  rewrite Hcut.
  destruct (url.parseAuthority a) as [e|[user hst]]; reflexivity.
Qed.

(** [Parse] on [scheme://authority path]. *)
Lemma Parse_authority scheme a pth :
  is_scheme scheme = true ->
  lacks "#" a = true -> lacks "?" a = true -> lacks "/" a = true ->
  url.stringContainsCTLByte a = false ->
  raw_path pth = true ->
  url.Parse (scheme ++ "://" ++ a ++ pth) =
  match url.parseAuthority a with
  | inl e => inl (url.mkError "parse" (scheme ++ "://" ++ a ++ pth) e)
  | inr (user, hst) =>
      match url.unescape pth url.encodePath with
      | inl e => inl (url.mkError "parse" (scheme ++ "://" ++ a ++ pth) e)
      | inr decoded =>
          inr (url.mkURL (strings.ToLower scheme) EmptyString user hst decoded
                         false false EmptyString EmptyString)
      end
  end.
Proof.
  intros Hs Hh Hq Hsl Hctl Hpath.
  unfold raw_path in Hpath.
  apply andb_true_iff in Hpath. destruct Hpath as [Hpath Hpc].
  apply andb_true_iff in Hpath. destruct Hpath as [Hpath Hph].
  apply andb_true_iff in Hpath. destruct Hpath as [Hstart Hpq].
  apply negb_true_iff in Hpc.
  change (scheme ++ "://" ++ a ++ pth) with (scheme ++ ":" ++ ("//" ++ a ++ pth)).
  rewrite Parse_scheme by assumption.
  rewrite Cut_lacks
    by (cbn [append lacks Ascii.eqb Bool.eqb negb andb]; rewrite lacks_app, Hh; assumption).
  assert (Hc : url.stringContainsCTLByte ("//" ++ a ++ pth) = false).
  { change ("//" ++ a ++ pth) with ("//" ++ (a ++ pth)).
    rewrite !CTL_app, Hctl. cbn [orb]. assumption. }
  rewrite Hc, parse_after_scheme_authority; try assumption;
    [|now apply ToLower_not_empty].
  destruct (url.parseAuthority a) as [e|[user hst]]; [reflexivity|].
  destruct (url.unescape pth url.encodePath); reflexivity.
Qed.

Lemma parseAuthority_plain_host h :
  all_bytes host_byte h = true -> url.parseAuthority h = inr (None, h).
Proof.
  intros Hh. destruct (host_bytes_facts h Hh) as (_ & _ & _ & _ & Hat & _).
  now rewrite parseAuthority_host, parseHost_without_port.
Qed.

(** X9. The path on the wire is the percent-decoded path. For a scheme, a
    plain host name and a path text whose escapes [unescape] decodes to
    [decoded]: the URL resolves to the path [decoded], and the request line
    written is [GET decoded HTTP/1.0]. The decoded bytes are written as
    they are; an escaped CR LF in the URL becomes a line break in the
    request. *)
Theorem decoded_path_is_sent (w : World) (scheme h raw decoded : string) :
  is_scheme scheme = true ->
  all_bytes host_byte h = true ->
  raw_path raw = true ->
  url.unescape raw url.encodePath = inr decoded ->
  target_of (scheme ++ "://" ++ h ++ raw) = Some (mkTarget h "80" decoded)
  /\ writes_of (trace (snd (Execute w [scheme ++ "://" ++ h ++ raw])))
     = match connect w "tcp" (h ++ ":" ++ "80") with
       | inr _ => ["GET " ++ decoded ++ " HTTP/1.0" ++ CRLF ++ "Host: " ++ h ++ CRLF ++ CRLF]
       | inl _ => []
       end.
Proof.
  intros Hs Hh Hraw Hdec.
  destruct (host_bytes_facts h Hh) as (_ & H1 & H2 & H3 & _ & _ & _ & H6).
  assert (HT : target_of (scheme ++ "://" ++ h ++ raw) = Some (mkTarget h "80" decoded)).
  { unfold target_of. rewrite Parse_authority by assumption.
    rewrite parseAuthority_plain_host, Hdec by assumption.
    unfold resolve, url.Hostname, url.Port. cbn [url.Host url.Path].
    now rewrite splitHostPort_without_port. }
  split; [exact HT|].
  rewrite writes_of_Execute, HT. reflexivity.
Qed.

Lemma decoded_path_is_sent_witness :
  target_of ("http" ++ "://" ++ "example.com" ++ "/a%0D%0AX-Injected:%20yes")
  = Some (mkTarget "example.com" "80"
                   ("/a" ++ CRLF ++ "X-Injected: yes"))
  /\ writes_of (trace (snd (Execute stub_server
                 ["http" ++ "://" ++ "example.com" ++ "/a%0D%0AX-Injected:%20yes"])))
     = ["GET " ++ ("/a" ++ CRLF ++ "X-Injected: yes") ++ " HTTP/1.0" ++ CRLF
        ++ "Host: " ++ "example.com" ++ CRLF ++ CRLF].
Proof.
  exact (decoded_path_is_sent stub_server "http" "example.com"
           "/a%0D%0AX-Injected:%20yes" ("/a" ++ CRLF ++ "X-Injected: yes")
           eq_refl eq_refl eq_refl eq_refl).
Defined.

(** X13. From the text of a plain URL to
    the network: [scheme://host:digits path] is dialed at [host:digits] (at
    [host:80] without digits), and the request written on that connection
    is [GET path HTTP/1.0] with the header [Host: host]; the port is in the
    address and never in the Host header. *)
Theorem plain_url_end_to_end (w : World) (scheme h p pth : string) :
  is_scheme scheme = true ->
  all_bytes host_byte h = true ->
  url.all_digits p = true ->
  plain_path pth = true ->
  let number := if String.eqb p EmptyString then "80" else p in
  let tr := trace (snd (Execute w [scheme ++ "://" ++ h ++ ":" ++ p ++ pth])) in
  dials_of tr = [("tcp", h ++ ":" ++ number)]
  /\ writes_of tr
     = match connect w "tcp" (h ++ ":" ++ number) with
       | inr _ => ["GET " ++ pth ++ " HTTP/1.0" ++ CRLF ++ "Host: " ++ h ++ CRLF ++ CRLF]
       | inl _ => []
       end.
Proof.
  intros Hs Hh Hp Hpath. cbv zeta.
  destruct (resolve_plain_url scheme h p pth Hs Hh Hp Hpath) as [HT _].
  rewrite dials_of_Execute, writes_of_Execute, HT. split; reflexivity.
Qed.

Lemma plain_url_end_to_end_witness :
  dials_of (trace (snd (Execute stub_server
              ["https" ++ "://" ++ "example.com" ++ ":" ++ "8443" ++ "/get"])))
  = [("tcp", "example.com" ++ ":" ++ "8443")]
  /\ writes_of (trace (snd (Execute stub_server
              ["https" ++ "://" ++ "example.com" ++ ":" ++ "8443" ++ "/get"])))
     = ["GET " ++ "/get" ++ " HTTP/1.0" ++ CRLF ++ "Host: " ++ "example.com" ++ CRLF ++ CRLF].
Proof.
  exact (plain_url_end_to_end stub_server "https" "example.com" "8443" "/get"
           eq_refl eq_refl eq_refl eq_refl).
Defined.

(** ** Arguments that are refused before any network activity *)

(** X10. A control byte (below 0x20, or 0x7f) anywhere before the first '#'
    of the argument makes [url.Parse] fail, and the program panics with an
    empty trace: a raw CR, LF or tab in the argument never reaches the
    network. *)
Theorem control_byte_is_refused (w : World) (arg : string) :
  url.stringContainsCTLByte (fst (fst (strings.Cut arg "#"))) = true ->
  Execute w [arg]
  = (Crashed (ErrParse (url.mkError "parse" (fst (fst (strings.Cut arg "#")))
                                    url.InvalidControlCharacter)),
     init).
Proof.
  intros H. apply Execute_unresolved. unfold url.Parse.
  destruct (strings.Cut arg "#") as [[u frag] found]. cbn [fst] in H |- *.
  unfold url.parse. rewrite H. reflexivity.
Qed.

Lemma control_byte_is_refused_witness :
  Execute stub_server ["http://example.com/a" ++ CRLF ++ "b#top"]
  = (Crashed (ErrParse (url.mkError "parse" ("http://example.com/a" ++ CRLF ++ "b")
                                    url.InvalidControlCharacter)),
     init).
Proof.
  exact (control_byte_is_refused stub_server
           ("http://example.com/a" ++ CRLF ++ "b#top") eq_refl).
Defined.

(** [unescape] outside the host: a text without '%' is kept, and scanning
    goes through it. *)
Lemma unescape_scan_lax mode a s n :
  (url.encoding_eqb mode url.encodeHost || url.encoding_eqb mode url.encodeZone) = false ->
  url.encoding_eqb mode url.encodeQueryComponent = false ->
  lacks "%" a = true ->
  url.unescape_scan mode (a ++ s) n false = url.unescape_scan mode s n false.
Proof.
  intros Hm Hq. induction a as [|c a IH]; intros H; [reflexivity|].
  simpl in H. apply andb_true_iff in H. destruct H as [Hc Ha].
  apply negb_true_iff in Hc.
  cbn [append url.unescape_scan]. rewrite Hc, Hm, Hq. cbn [andb].
  destruct (Ascii.eqb c "+"); now apply IH.
Qed.

Lemma unescape_lax mode s :
  (url.encoding_eqb mode url.encodeHost || url.encoding_eqb mode url.encodeZone) = false ->
  url.encoding_eqb mode url.encodeQueryComponent = false ->
  lacks "%" s = true ->
  url.unescape s mode = inr s.
Proof.
  intros Hm Hq H. unfold url.unescape.
  rewrite <- (app_empty_r s) at 1.
  rewrite unescape_scan_lax by assumption. reflexivity.
Qed.

Lemma unescape_scan_bad mode b n hasPlus :
  bad_escape b = true ->
  url.unescape_scan mode (String "%" b) n hasPlus
  = inl (url.EscapeError (strings.take 3 (String "%" b))).
Proof.
  intros H. cbn [url.unescape_scan Ascii.eqb Bool.eqb].
  destruct b as [|h1 [|h2 b]]; try reflexivity.
  cbn [bad_escape] in H. rewrite H. reflexivity.
Qed.

(** X11. A '%' that is not followed by two hexadecimal digits, in the path
    of an otherwise plain URL, makes [url.Parse] fail with the escape error
    that names the '%' and what follows it (three bytes at most); the
    program panics before it prints or dials anything. *)
Theorem malformed_escape_is_refused (w : World) (scheme h a b : string) :
  is_scheme scheme = true ->
  all_bytes host_byte h = true ->
  raw_path (a ++ "%" ++ b) = true ->
  lacks "%" a = true ->
  bad_escape b = true ->
  Execute w [scheme ++ "://" ++ h ++ a ++ "%" ++ b]
  = (Crashed (ErrParse (url.mkError "parse" (scheme ++ "://" ++ h ++ a ++ "%" ++ b)
                                    (url.EscapeError (strings.take 3 ("%" ++ b))))),
     init).
Proof.
  intros Hs Hh Hraw Ha Hb. apply Execute_unresolved.
  destruct (host_bytes_facts h Hh) as (_ & H1 & H2 & H3 & _ & _ & _ & H6).
  rewrite Parse_authority by assumption.
  rewrite parseAuthority_plain_host by assumption.
  unfold url.unescape.
  rewrite unescape_scan_lax by (reflexivity || assumption).
  change ("%" ++ b) with (String "%" b).
  now rewrite unescape_scan_bad.
Qed.

Lemma malformed_escape_is_refused_witness :
  Execute stub_server ["http" ++ "://" ++ "example.com" ++ "/a" ++ "%" ++ "zz/b"]
  = (Crashed (ErrParse (url.mkError "parse"
                          ("http" ++ "://" ++ "example.com" ++ "/a" ++ "%" ++ "zz/b")
                          (url.EscapeError (strings.take 3 ("%" ++ "zz/b"))))),
     init).
Proof.
  exact (malformed_escape_is_refused stub_server "http" "example.com" "/a" "zz/b"
           eq_refl eq_refl eq_refl eq_refl eq_refl).
Defined.

Lemma HasPrefix_app_lacks c d a b :
  lacks c a = true -> Ascii.eqb d c = false ->
  strings.HasPrefix (a ++ String d b) (String c EmptyString) = false.
Proof.
  intros Ha Hd. destruct a as [|x a].
  - cbn [append strings.HasPrefix]. now rewrite Hd.
  - simpl in Ha. apply andb_true_iff in Ha. destruct Ha as [Hx _].
    apply negb_true_iff in Hx. cbn [append strings.HasPrefix]. now rewrite Hx.
Qed.

(** X12. A port that is not made of digits makes [url.Parse] fail with the
    invalid-port error, and the program panics before it prints or dials
    anything: for a plain host name and a text after its colon that holds a
    byte other than a digit. *)
Theorem non_numeric_port_is_refused (w : World) (scheme h p pth : string) :
  is_scheme scheme = true ->
  all_bytes host_byte h = true ->
  port_text p = true ->
  url.all_digits p = false ->
  raw_path pth = true ->
  Execute w [scheme ++ "://" ++ (h ++ ":" ++ p) ++ pth]
  = (Crashed (ErrParse (url.mkError "parse" (scheme ++ "://" ++ (h ++ ":" ++ p) ++ pth)
                                    (url.InvalidPort (":" ++ p)))),
     init).
Proof.
  intros Hs Hh Hpt Hnd Hraw. apply Execute_unresolved.
  destruct (host_bytes_facts h Hh) as (_ & H1 & H2 & H3 & H4 & _ & H5 & H6).
  unfold port_text in Hpt.
  apply andb_true_iff in Hpt. destruct Hpt as [Hpt Pctl].
  apply andb_true_iff in Hpt. destruct Hpt as [Hpt Phash].
  apply andb_true_iff in Hpt. destruct Hpt as [Hpt Pq].
  apply andb_true_iff in Hpt. destruct Hpt as [Hpt Pslash].
  apply andb_true_iff in Hpt. destruct Hpt as [Pcolon Pat].
  apply negb_true_iff in Pctl.
  assert (Hlacks : forall c, Ascii.eqb ":" c = false -> lacks c h = true ->
                             lacks c p = true -> lacks c (h ++ ":" ++ p) = true).
  { intros c Hc Lh Lp. rewrite lacks_app, Lh. cbn [append lacks andb].
    now rewrite Hc, Lp. }
  rewrite Parse_authority; try assumption; try (apply Hlacks; auto; fail).
  - rewrite parseAuthority_host by (apply Hlacks; auto).
    unfold url.parseHost.
    change (h ++ ":" ++ p) with (h ++ String ":" p).
    rewrite (HasPrefix_app_lacks "[" ":" h p H5 eq_refl).
    rewrite LastIndex_app_lacks by assumption.
    rewrite drop_app_exact. cbn [url.validOptionalPort].
    rewrite Ascii.eqb_refl, Hnd. reflexivity.
  - rewrite CTL_app, H6.
    change (url.stringContainsCTLByte (":" ++ p)) with (url.stringContainsCTLByte p).
    assumption.
Qed.

Lemma non_numeric_port_is_refused_witness :
  Execute stub_server ["http" ++ "://" ++ ("example.com" ++ ":" ++ "80a") ++ "/x"]
  = (Crashed (ErrParse (url.mkError "parse"
                          ("http" ++ "://" ++ ("example.com" ++ ":" ++ "80a") ++ "/x")
                          (url.InvalidPort (":" ++ "80a")))),
     init).
Proof.
  exact (non_numeric_port_is_refused stub_server "http" "example.com" "80a" "/x"
           eq_refl eq_refl eq_refl eq_refl eq_refl).
Defined.

(** ** What is in the URL and never on the network *)

Lemma lacks_take c n s : lacks c s = true -> lacks c (strings.take n s) = true.
Proof.
  revert s; induction n as [|n IH]; intros [|d s] H; try reflexivity.
  simpl in H |- *. apply andb_true_iff in H. destruct H as [-> Hs].
  now rewrite IH.
Qed.

Lemma validUserinfo_bytes s : url.validUserinfo s = all_bytes userinfo_byte s.
Proof. induction s as [|c s IH]; [reflexivity|]. simpl. now rewrite IH. Qed.

Lemma userinfo_byte_facts c :
  userinfo_byte c = true ->
  Ascii.eqb c "#" = false /\ Ascii.eqb c "?" = false /\ Ascii.eqb c "/" = false
  /\ ((nat_of_ascii c <? 32) || (nat_of_ascii c =? 127)) = false.
Proof. by_cases_on_byte c. Qed.

Lemma userinfo_facts ui :
  url.validUserinfo ui = true ->
  lacks "#" ui = true /\ lacks "?" ui = true /\ lacks "/" ui = true
  /\ url.stringContainsCTLByte ui = false.
Proof.
  rewrite validUserinfo_bytes. intros H.
  repeat split;
    try (apply (all_bytes_lacks userinfo_byte); [|exact H];
         intros c Hc; now destruct (userinfo_byte_facts c Hc) as (?&?&?&_)).
  apply (all_bytes_no_CTL userinfo_byte); [|exact H].
  intros c Hc. now destruct (userinfo_byte_facts c Hc) as (_&_&_&?).
Qed.

(** [parseAuthority] on [userinfo@host]: the host is parsed as without the
    userinfo, and a valid userinfo without escapes is accepted. *)
Lemma parseAuthority_userinfo ui a :
  url.validUserinfo ui = true -> lacks "%" ui = true -> lacks "@" a = true ->
  exists user,
    url.parseAuthority (ui ++ "@" ++ a) =
    match url.parseHost a with
    | inl e => inl e
    | inr hst => inr (Some user, hst)
    end.
Proof.
  intros Hv Hpct Hat. unfold url.parseAuthority.
  change (ui ++ "@" ++ a) with (ui ++ String "@" a).
  rewrite LastIndex_app_lacks by assumption.
  rewrite drop_S_app, take_app_exact, Hv. cbn [negb].
  assert (Hlax : forall s, lacks "%" s = true ->
                           url.unescape s url.encodeUserPassword = inr s).
  { intros s Hs. now apply unescape_lax. }
  destruct (strings.Contains ui ":") eqn:Hc; cbn [negb].
  - unfold strings.Cut.
    destruct (strings.Index ui ":") as [i|].
    + rewrite !Hlax by (apply lacks_take || apply lacks_drop; assumption).
      eexists. destruct (url.parseHost a); reflexivity.
    + rewrite !Hlax by (assumption || reflexivity).
      eexists. destruct (url.parseHost a); reflexivity.
  - rewrite Hlax by assumption.
    eexists. destruct (url.parseHost a); reflexivity.
Qed.

(** X14. Credentials in the URL are parsed and then ignored. For a valid
    userinfo without percent escapes, [scheme://userinfo@host path] and
    [scheme://host path] resolve to the same target, so the same address is
    dialed and the same bytes are written: the userinfo is in neither, and
    no header carries it. The final state and the exit status are the same
    too. *)
Theorem userinfo_is_dropped (w : World) (scheme ui a pth : string) :
  is_scheme scheme = true ->
  url.validUserinfo ui = true ->
  lacks "%" ui = true ->
  host_port_text a = true ->
  raw_path pth = true ->
  let with_ui := Execute w [scheme ++ "://" ++ (ui ++ "@" ++ a) ++ pth] in
  let without := Execute w [scheme ++ "://" ++ a ++ pth] in
  target_of (scheme ++ "://" ++ (ui ++ "@" ++ a) ++ pth)
  = target_of (scheme ++ "://" ++ a ++ pth)
  /\ dials_of (trace (snd with_ui)) = dials_of (trace (snd without))
  /\ writes_of (trace (snd with_ui)) = writes_of (trace (snd without))
  /\ snd with_ui = snd without
  /\ exit_status (fst with_ui) = exit_status (fst without).
Proof.
  intros Hs Hv Hpct Ha Hraw. cbv zeta.
  unfold host_port_text in Ha.
  apply andb_true_iff in Ha. destruct Ha as [Ha Actl].
  apply andb_true_iff in Ha. destruct Ha as [Ha Ahash].
  apply andb_true_iff in Ha. destruct Ha as [Ha Aq].
  apply andb_true_iff in Ha. destruct Ha as [Aat Aslash].
  apply negb_true_iff in Actl.
  destruct (userinfo_facts ui Hv) as (U1 & U2 & U3 & U4).
  assert (Hlacks : forall c, Ascii.eqb "@" c = false -> lacks c ui = true ->
                             lacks c a = true -> lacks c (ui ++ "@" ++ a) = true).
  { intros c Hc Lu La. rewrite lacks_app, Lu. cbn [append lacks andb].
    now rewrite Hc, La. }
  assert (HT : target_of (scheme ++ "://" ++ (ui ++ "@" ++ a) ++ pth)
               = target_of (scheme ++ "://" ++ a ++ pth)).
  { unfold target_of.
    rewrite !Parse_authority; try assumption; try (apply Hlacks; auto; fail).
    - destruct (parseAuthority_userinfo ui a Hv Hpct Aat) as [user E].
      rewrite E, parseAuthority_host by assumption.
      destruct (url.parseHost a) as [e|hst]; [reflexivity|].
      destruct (url.unescape pth url.encodePath); reflexivity.
    - rewrite CTL_app, U4.
      change (url.stringContainsCTLByte ("@" ++ a)) with (url.stringContainsCTLByte a).
      assumption. }
  split; [exact HT|].
  rewrite !Execute_final_state, !Execute_exit_status, HT. repeat split.
Qed.

Lemma userinfo_is_dropped_witness :
  target_of ("http" ++ "://" ++ ("alice:secret" ++ "@" ++ "example.com:8080") ++ "/x")
  = target_of ("http" ++ "://" ++ "example.com:8080" ++ "/x")
  /\ dials_of (trace (snd (Execute stub_server
        ["http" ++ "://" ++ ("alice:secret" ++ "@" ++ "example.com:8080") ++ "/x"])))
     = dials_of (trace (snd (Execute stub_server
        ["http" ++ "://" ++ "example.com:8080" ++ "/x"])))
  /\ writes_of (trace (snd (Execute stub_server
        ["http" ++ "://" ++ ("alice:secret" ++ "@" ++ "example.com:8080") ++ "/x"])))
     = writes_of (trace (snd (Execute stub_server
        ["http" ++ "://" ++ "example.com:8080" ++ "/x"])))
  /\ snd (Execute stub_server
        ["http" ++ "://" ++ ("alice:secret" ++ "@" ++ "example.com:8080") ++ "/x"])
     = snd (Execute stub_server ["http" ++ "://" ++ "example.com:8080" ++ "/x"])
  /\ exit_status (fst (Execute stub_server
        ["http" ++ "://" ++ ("alice:secret" ++ "@" ++ "example.com:8080") ++ "/x"]))
     = exit_status (fst (Execute stub_server
        ["http" ++ "://" ++ "example.com:8080" ++ "/x"])).
Proof.
  exact (userinfo_is_dropped stub_server "http" "alice:secret" "example.com:8080" "/x"
           eq_refl eq_refl eq_refl eq_refl eq_refl).
Defined.

(** [Parse] with a fragment that has no escapes: the URL without the
    fragment, and the fragment stored. *)
Lemma Parse_fragment base frag :
  lacks "#" base = true -> lacks "%" frag = true ->
  url.Parse (base ++ "#" ++ frag) =
  match url.Parse base with
  | inl e => inl e
  | inr u =>
      inr (if url.is_empty frag then u
           else url.mkURL (url.Scheme u) (url.Opaque u) (url.User u) (url.Host u)
                          (url.Path u) (url.OmitHost u) (url.ForceQuery u)
                          (url.RawQuery u) frag)
  end.
Proof.
  intros Hb Hf.
  rewrite (Parse_tail base ("#" ++ frag)) by (assumption || reflexivity).
  pose proof (Parse_tail base EmptyString Hb eq_refl) as E.
  rewrite app_empty_r in E. rewrite E.
  destruct (url.parse base false) as [e|u]; [reflexivity|].
  cbn [append strings.drop url.is_empty].
  destruct (url.is_empty frag); [reflexivity|].
  unfold url.setFragment. rewrite unescape_lax by (reflexivity || assumption).
  reflexivity.
Qed.

(** X15. The fragment takes no part in the request. For a text [base]
    without '#' and a fragment without percent escapes, the executions on
    [base#fragment] and on [base] are the same altogether: same outcome
    (the parse error, when there is one, names [base] in both), same trace,
    same final state. A fragment may even hold control bytes. *)
Theorem fragment_is_dropped (w : World) (base frag : string) :
  lacks "#" base = true ->
  lacks "%" frag = true ->
  Execute w [base ++ "#" ++ frag] = Execute w [base]
  /\ target_of (base ++ "#" ++ frag) = target_of base.
Proof.
  intros Hb Hf.
  pose proof (Parse_fragment base frag Hb Hf) as E.
  split.
  - rewrite !Execute_steps, E.
    destruct (url.Parse base) as [e|u]; [reflexivity|].
    destruct (url.is_empty frag); reflexivity.
  - unfold target_of. rewrite E.
    destruct (url.Parse base) as [e|u]; [reflexivity|].
    destruct (url.is_empty frag); reflexivity.
Qed.

Lemma fragment_is_dropped_witness :
  Execute stub_server ["http://example.com/get" ++ "#" ++ "top"]
  = Execute stub_server ["http://example.com/get"]
  /\ target_of ("http://example.com/get" ++ "#" ++ "top")
     = target_of "http://example.com/get".
Proof.
  exact (fragment_is_dropped stub_server "http://example.com/get" "top" eq_refl eq_refl).
Defined.

(** ** Arguments without a host *)

(** X16. An argument that is only an absolute path (it begins with one '/',
    not two, and is a plain path) is accepted by [url.Parse] as a relative
    reference: host and port are empty, so the program dials [:80] and
    writes a request whose Host header is empty. *)
Theorem path_only_argument_is_dialed (w : World) (pth : string) :
  plain_path pth = true ->
  strings.HasPrefix pth "/" = true ->
  strings.HasPrefix pth "//" = false ->
  let tr := trace (snd (Execute w [pth])) in
  target_of pth = Some (mkTarget EmptyString "80" pth)
  /\ dials_of tr = [("tcp", ":80")]
  /\ writes_of tr
     = match connect w "tcp" ":80" with
       | inr _ => ["GET " ++ pth ++ " HTTP/1.0" ++ CRLF ++ "Host: " ++ CRLF ++ CRLF]
       | inl _ => []
       end.
Proof.
  intros Hpath H1 H2. cbv zeta.
  pose proof Hpath as Hp. unfold plain_path in Hp.
  apply andb_true_iff in Hp. destruct Hp as [Hp Pctl].
  apply andb_true_iff in Hp. destruct Hp as [Hp Ppct].
  apply andb_true_iff in Hp. destruct Hp as [Hp Phash].
  apply andb_true_iff in Hp. destruct Hp as [_ Pq].
  apply negb_true_iff in Pctl.
  assert (HT : target_of pth = Some (mkTarget EmptyString "80" pth)).
  { unfold target_of, url.Parse. rewrite Cut_lacks by assumption.
    unfold url.parse. rewrite Pctl, andb_false_r.
    destruct pth as [|c pth]; [discriminate|].
    cbn [strings.HasPrefix] in H1. rewrite andb_true_r in H1.
    apply Ascii.eqb_eq in H1. subst c.
    assert (Hstar : String.eqb (String "/" pth) "*" = false) by reflexivity.
    rewrite Hstar.
    assert (Hg : url.getScheme (String "/" pth) = inr (EmptyString, String "/" pth))
      by reflexivity.
    rewrite Hg. change (strings.ToLower EmptyString) with EmptyString.
    unfold url.parse_after_scheme. rewrite split_query_lacks by assumption.
    assert (Hpre : strings.HasPrefix (String "/" pth) "/" = true) by reflexivity.
    rewrite Hpre. cbn [negb].
    unfold url.parse_hier, url.parse_authority_part. rewrite H2, Hpre.
    cbn [url.is_empty negb andb orb]. rewrite andb_false_r.
    rewrite unescape_path by assumption. reflexivity. }
  split; [exact HT|].
  rewrite dials_of_Execute, writes_of_Execute, HT. split; reflexivity.
Qed.

Lemma path_only_argument_is_dialed_witness :
  target_of "/index.html" = Some (mkTarget EmptyString "80" "/index.html")
  /\ dials_of (trace (snd (Execute stub_server ["/index.html"]))) = [("tcp", ":80")]
  /\ writes_of (trace (snd (Execute stub_server ["/index.html"])))
     = ["GET " ++ "/index.html" ++ " HTTP/1.0" ++ CRLF ++ "Host: " ++ CRLF ++ CRLF].
Proof.
  exact (path_only_argument_is_dialed stub_server "/index.html" eq_refl eq_refl eq_refl).
Defined.

(** X17. A scheme followed by a text that does not begin with '/' is an
    opaque URL for [url.Parse]: it has no host and no path. So an argument
    such as [example.com:8080] or [localhost:80/x], a host and a port
    without a scheme, is read as the scheme [example.com] and not as a
    host: the program dials [:80] and writes [GET  HTTP/1.0] with an empty
    Host header. *)
Theorem host_port_without_scheme_is_opaque (w : World) (name rest : string) :
  is_scheme name = true ->
  strings.HasPrefix rest "/" = false ->
  lacks "?" rest = true -> lacks "#" rest = true ->
  url.stringContainsCTLByte rest = false ->
  let tr := trace (snd (Execute w [name ++ ":" ++ rest])) in
  target_of (name ++ ":" ++ rest) = Some (mkTarget EmptyString "80" EmptyString)
  /\ dials_of tr = [("tcp", ":80")]
  /\ writes_of tr
     = match connect w "tcp" ":80" with
       | inr _ => ["GET  HTTP/1.0" ++ CRLF ++ "Host: " ++ CRLF ++ CRLF]
       | inl _ => []
       end.
Proof.
  intros Hs Hpre Hq Hh Hctl. cbv zeta.
  assert (HT : target_of (name ++ ":" ++ rest)
               = Some (mkTarget EmptyString "80" EmptyString)).
  { unfold target_of. rewrite Parse_scheme by assumption.
    rewrite Cut_lacks by assumption. rewrite Hctl.
    unfold url.parse_after_scheme. rewrite split_query_lacks by assumption.
    rewrite Hpre, (ToLower_not_empty name Hs). reflexivity. }
  split; [exact HT|].
  rewrite dials_of_Execute, writes_of_Execute, HT. split; reflexivity.
Qed.

Lemma host_port_without_scheme_is_opaque_witness :
  target_of ("example.com" ++ ":" ++ "8080")
  = Some (mkTarget EmptyString "80" EmptyString)
  /\ dials_of (trace (snd (Execute stub_server ["example.com" ++ ":" ++ "8080"])))
     = [("tcp", ":80")]
  /\ writes_of (trace (snd (Execute stub_server ["example.com" ++ ":" ++ "8080"])))
     = ["GET  HTTP/1.0" ++ CRLF ++ "Host: " ++ CRLF ++ CRLF].
Proof.
  exact (host_port_without_scheme_is_opaque stub_server "example.com" "8080"
           eq_refl eq_refl eq_refl eq_refl eq_refl).
Defined.

Lemma blocks_iff_peer_is_silent_witness :
  fst (Execute (serving (mkPeer EmptyString NeverEnds)) ["http://example.com/get"]) = Hung.
Proof.
  refine (proj2 (proj1 (blocks_iff_peer_is_silent
                          (serving (mkPeer EmptyString NeverEnds))
                          ["http://example.com/get"])) _).
  exists "http://example.com/get".
  eexists. exists (mkPeer EmptyString NeverEnds).
  repeat split; reflexivity.
Defined.

(** ** When [rootCmd.Run] returns *)

Lemma Run_steps_first w arg rest :
  Run w (arg :: rest) init =
  match url.Parse arg with
  | inl e => (Panic (ErrParse e), init)
  | inr u => exchange w (resolve u) (mkState (banner (resolve u)) [] [])
  end.
Proof.
  unfold Run, index. cbn [nth_error]. unfold bind at 1, ret.
  destruct (url.Parse arg) as [e|u]; reflexivity.
Qed.

(** The call of [Run], case by case; [Run] reads [args[0]] only. *)
Lemma call_Run_steps w arg rest :
  call (Run w (arg :: rest)) init =
  match url.Parse arg with
  | inl e => (Panic (ErrParse e), init)
  | inr u =>
      let t := resolve u in
      match connect w "tcp" (address t) with
      | inl d =>
          (Panic (ErrOp "dial" d),
           mkState (banner t ++ [EvDial "tcp" (address t)]) [] [])
      | inr p => finished (banner t) t p
      end
  end.
Proof.
  unfold call. unfold init at 1 2 3. cbn [trace socks defers]. fold init.
  rewrite Run_steps_first.
  destruct (url.Parse arg) as [e|u]; [reflexivity|].
  rewrite exchange_steps. cbv zeta.
  destruct (connect w "tcp" (address (resolve u))) as [d|p]; [reflexivity|].
  apply call_exchanged.
Qed.

(** X6. The closure [rootCmd.Run] (lines 28-62) returns, rather than panics
    or blocks, exactly when [args[0]] parses, the dial succeeds, and the
    peer has delivered at least one byte when the read is served. Without
    any argument it panics on [args[0]]. *)
Theorem Run_returns_iff_a_byte_arrived (w : World) (args : list string) :
  (fst (call (Run w args) init) = Ret tt <->
   exists arg rest u p,
     args = arg :: rest /\ url.Parse arg = inr u
     /\ connect w "tcp" (host (resolve u) ++ ":" ++ port (resolve u)) = inr p
     /\ url.is_empty (incoming p) = false)
  /\ (args = [] ->
      call (Run w args) init = (Panic (ErrRuntime "index out of range"), init)).
Proof.
  split; [|intros ->; reflexivity].
  destruct args as [|arg rest].
  - split; [discriminate|]. intros (a & r & u & p & E & _). discriminate.
  - rewrite call_Run_steps.
    destruct (url.Parse arg) as [err|u] eqn:HP.
    { split; [discriminate|].
      intros (a & r & u & p & E & HP' & _). injection E as <- <-. congruence. }
    cbv zeta.
    destruct (connect w "tcp" (address (resolve u))) as [dt|p] eqn:HC.
    { split; [discriminate|].
      intros (a & r & u' & p & E & HP' & HC' & _). injection E as <- <-.
      unfold address in HC. congruence. }
    assert (Hsame : forall a r u' p',
              arg :: rest = a :: r -> url.Parse a = inr u' ->
              connect w "tcp" (host (resolve u') ++ ":" ++ port (resolve u')) = inr p' ->
              p' = p).
    { intros a r u' p' E HP' HC'. injection E as <- <-. unfold address in HC. congruence. }
    unfold finished.
    destruct (incoming p) as [|c s] eqn:Hi; [destruct (ending p)|]; cbn [fst].
    + split; [discriminate|].
      intros (a & r & u' & p' & E & HP' & HC' & Hi').
      rewrite (Hsame a r u' p' E HP' HC'), Hi in Hi'. discriminate.
    + split; [discriminate|].
      intros (a & r & u' & p' & E & HP' & HC' & Hi').
      rewrite (Hsame a r u' p' E HP' HC'), Hi in Hi'. discriminate.
    + split; [discriminate|].
      intros (a & r & u' & p' & E & HP' & HC' & Hi').
      rewrite (Hsame a r u' p' E HP' HC'), Hi in Hi'. discriminate.
    + split; [|reflexivity].
      intros _. exists arg, rest, u, p. unfold address in HC.
      repeat split; try assumption. now rewrite Hi.
Qed.

Lemma Run_returns_iff_a_byte_arrived_witness :
  fst (call (Run stub_server ["http://example.com/get"]) init) = Ret tt.
Proof.
  refine (proj2 (proj1 (Run_returns_iff_a_byte_arrived stub_server
                          ["http://example.com/get"])) _).
  exists "http://example.com/get", [].
  eexists. exists (mkPeer stub_reply PeerClosed).
  repeat split; reflexivity.
Defined.
